(** * bikewatching: the time-windowed traffic aggregation of [map.js]

    A shallow embedding of the minute buckets, the cyclic window query
    [filterByMinute], the per-station aggregation [computeStationTraffic]
    (which writes on the station objects it is given, so the stations live
    in an explicit heap of objects), the row conversion that fills the
    buckets, and the two visual encodings (radius scale, departure ratio). *)

From Stdlib Require Import ZArith List Lia Reals Lra.
From stdpp Require Import gmap strings list fin_maps.

Local Open Scope Z_scope.

(** ** JavaScript values held in object fields *)

(** The primitive values that the station JSON and the trip CSV can put in a
    field.  [VInt] is a number with an integral value, [VDouble] any other
    finite number, identified by its IEEE-754 bit pattern.  Equality on this
    type is the key equality of a JS [Map] on such primitives. *)
Inductive value : Type :=
  | VUndefined
  | VNull
  | VBool (b : bool)
  | VInt (n : Z)
  | VDouble (bits : Z)
  | VStr (s : string).

#[global] Instance value_eq_dec : EqDecision value.
Proof. solve_decision. Defined.

(** An object is a finite map from property names to values; reading a
    property that is absent yields [undefined]. *)
Abbreviation obj := (gmap string value).

Definition get_field (o : obj) (k : string) : value :=
  default VUndefined (o !! k).

(** Object references and the heap of station objects. *)
Abbreviation loc := nat.
Abbreviation heap := (gmap loc obj).

(** ** Numbers that may be NaN, and Dates *)

Inductive number : Type :=
  | NaN
  | Num (n : Z).

Definition num_mul (a b : number) : number :=
  match a, b with
  | Num x, Num y => Num (x * y)
  | _, _ => NaN
  end.

Definition num_add (a b : number) : number :=
  match a, b with
  | Num x, Num y => Num (x + y)
  | _, _ => NaN
  end.

(** A [Date] is either invalid or holds a time value; [local_ms] is that time
    value already shifted to local time, in milliseconds. *)
Inductive date : Type :=
  | InvalidDate
  | DateAt (local_ms : Z).

Definition msPerMinute : Z := 60000.
Definition msPerHour : Z := 3600000.

Definition getHours (d : date) : number :=
  match d with
  | InvalidDate => NaN
  | DateAt t => Num ((t / msPerHour) mod 24)
  end.

Definition getMinutes (d : date) : number :=
  match d with
  | InvalidDate => NaN
  | DateAt t => Num ((t / msPerMinute) mod 60)
  end.

(** [minutesSinceMidnight] of map.js. *)
Definition minutesSinceMidnight (d : date) : number :=
  num_add (num_mul (getHours d) (Num 60)) (getMinutes d).

(** ** Trips *)

(** A trip object after the row conversion: the two station ids are the CSV
    cells as they came, the two timestamps have been replaced by Dates.  The
    other CSV columns are carried along and never read. *)
Record trip : Type := Trip {
  start_station_id : value;
  end_station_id : value;
  started_at : date;
  ended_at : date
}.

(** ** Arrays: [slice] and [flat] *)

(** The clamping of a relative index done by [Array.prototype.slice]. *)
Definition slice_index (len k : Z) : Z :=
  if k <? 0 then Z.max (len + k) 0 else Z.min k len.

(** [arr.slice(start, end)]; [None] for an omitted [end]. *)
Definition slice {A : Type} (arr : list A) (start : Z) (end_ : option Z) : list A :=
  let len := Z.of_nat (length arr) in
  let k := slice_index len start in
  let final := match end_ with
               | None => len
               | Some e => slice_index len e
               end in
  take (Z.to_nat (final - k)) (drop (Z.to_nat k) arr).

(** [arr.flat()] on an array of arrays. *)
Definition flat {A : Type} (arr : list (list A)) : list A := concat arr.

(** ** The minute buckets *)

Definition MINUTES : nat := 1440.

(** [Array.from({ length: 1440 }, () => [])]. *)
Definition empty_buckets : list (list trip) := replicate MINUTES [].

(** [filterByMinute] of map.js; [%] is the truncating remainder. *)
Definition filterByMinute (tripsByMinute : list (list trip)) (minute : Z) : list trip :=
  if minute =? -1 then flat tripsByMinute
  else
    let minMinute := Z.rem (minute - 60 + 1440) 1440 in
    let maxMinute := Z.rem (minute + 60) 1440 in
    if minMinute >? maxMinute then
      let beforeMidnight := slice tripsByMinute minMinute None in
      let afterMidnight := slice tripsByMinute 0 (Some maxMinute) in
      flat (beforeMidnight ++ afterMidnight)
    else flat (slice tripsByMinute minMinute (Some maxMinute)).

(** ** Ingestion: the row conversion passed to [d3.csv] *)

(** A parsed CSV row before conversion: every cell is a string, or
    [undefined] when the column is missing. *)
Record rawRow : Type := RawRow {
  raw_start_station_id : value;
  raw_end_station_id : value;
  raw_started_at : value;
  raw_ended_at : value
}.

(** The two module-level bucket arrays. *)
Record buckets : Type := Buckets {
  departuresByMinute : list (list trip);
  arrivalsByMinute : list (list trip)
}.

Definition initial_buckets : buckets :=
  {| departuresByMinute := empty_buckets; arrivalsByMinute := empty_buckets |}.

(** How a call completes: normally with a value, or by throwing the
    [TypeError] of a method call on [undefined]. *)
Inductive completion (A : Type) : Type :=
  | Normal (a : A)
  | TypeError.
Arguments Normal {A} a.
Arguments TypeError {A}.

(** [arr[i].push(x)]: [arr[i]] is [undefined] when [i] is NaN or not an index
    of [arr], and then the call throws ([None]); otherwise [x] is appended
    to slot [i]. *)
Definition push_at (arr : list (list trip)) (i : number) (x : trip)
  : option (list (list trip)) :=
  match i with
  | NaN => None
  | Num n =>
      if 0 <=? n then
        match arr !! Z.to_nat n with
        | Some slot => Some (<[Z.to_nat n := slot ++ [x]]> arr)
        | None => None
        end
      else None
  end.

Section Ingestion.
(** [new Date(cell)]: the parsing of a timestamp cell is the host's. *)
Context (newDate : value → date).

Definition convert_dates (row : rawRow) : trip :=
  {| start_station_id := raw_start_station_id row;
     end_station_id := raw_end_station_id row;
     started_at := newDate (raw_started_at row);
     ended_at := newDate (raw_ended_at row) |}.

(** The row callback of map.js, lines 156-168, on the global buckets.  The
    buckets returned with [TypeError] are the ones left behind by the
    statements that ran before the throw. *)
Definition row_callback (row : rawRow) (b : buckets) : completion trip * buckets :=
  let trip := convert_dates row in
  let startedMinutes := minutesSinceMidnight (started_at trip) in
  match push_at (departuresByMinute b) startedMinutes trip with
  | None => (TypeError, b)
  | Some deps =>
      let b1 := {| departuresByMinute := deps;
                   arrivalsByMinute := arrivalsByMinute b |} in
      let endedMinutes := minutesSinceMidnight (ended_at trip) in
      match push_at (arrivalsByMinute b1) endedMinutes trip with
      | None => (TypeError, b1)
      | Some arrs =>
          (Normal trip, {| departuresByMinute := deps; arrivalsByMinute := arrs |})
      end
  end.

(** [d3.csv(url, row)]: the callback is applied to the rows in file order
    and its results are collected; a throw from the callback ends the
    parse and rejects the promise. *)
Fixpoint d3_csv (rows : list rawRow) (b : buckets) : completion (list trip) * buckets :=
  match rows with
  | [] => (Normal [], b)
  | row :: rest =>
      match row_callback row b with
      | (Normal t, b1) =>
          match d3_csv rest b1 with
          | (Normal ts, b2) => (Normal (t :: ts), b2)
          | (TypeError, b2) => (TypeError, b2)
          end
      | (TypeError, b1) => (TypeError, b1)
      end
  end.
End Ingestion.

(** ** [d3.rollup] with one key: an insertion-ordered map *)

(** Adding a value to the group of its key, or opening a new group at the
    end. *)
Fixpoint group_add {A : Type} (k : value) (x : A) (groups : list (value * list A))
  : list (value * list A) :=
  match groups with
  | [] => [(k, [x])]
  | (k', xs) :: rest =>
      if decide (k = k') then (k', xs ++ [x]) :: rest
      else (k', xs) :: group_add k x rest
  end.

Definition d3_group {A : Type} (values : list A) (key : A → value)
  : list (value * list A) :=
  foldl (fun groups x => group_add (key x) x groups) [] values.

Definition d3_rollup {A B : Type} (values : list A) (reduce : list A → B)
  (key : A → value) : list (value * B) :=
  map (fun g => (fst g, reduce (snd g))) (d3_group values key).

(** [m.get(k)]; [None] is [undefined]. *)
Fixpoint map_get {B : Type} (m : list (value * B)) (k : value) : option B :=
  match m with
  | [] => None
  | (k', v) :: rest => if decide (k = k') then Some v else map_get rest k
  end.

(** [v.length]. *)
Definition js_length {A : Type} (v : list A) : Z := Z.of_nat (length v).

(** ** [computeStationTraffic] *)

(** [arr.map(f)] for a callback that may write on the heap. *)
Fixpoint array_map (f : loc → heap → option (loc * heap)) (arr : list loc) (h : heap)
  : option (list loc * heap) :=
  match arr with
  | [] => Some ([], h)
  | x :: rest =>
      match f x h with
      | Some (y, h1) =>
          match array_map f rest h1 with
          | Some (ys, h2) => Some (y :: ys, h2)
          | None => None
          end
      | None => None
      end
  end.

(** The three assignments of lines 95-97 on one station object; the sum of
    line 97 reads back the two numbers that lines 95 and 96 have just
    assigned. *)
Definition write_traffic (departures arrivals : list (value * Z)) (o : obj) : obj :=
  let id := get_field o "short_name" in
  let station_arrivals := default 0 (map_get arrivals id) in
  let o1 := <["arrivals" := VInt station_arrivals]> o in
  let station_departures := default 0 (map_get departures id) in
  let o2 := <["departures" := VInt station_departures]> o1 in
  <["totalTraffic" := VInt (station_arrivals + station_departures)]> o2.

(** The callback of [stations.map]: it writes on the object that [station]
    refers to and returns that same reference.  [None] stands for a
    reference to no object, which no JS array of objects holds. *)
Definition station_callback (departures arrivals : list (value * Z))
  (station : loc) (h : heap) : option (loc * heap) :=
  match h !! station with
  | Some o => Some (station, <[station := write_traffic departures arrivals o]> h)
  | None => None
  end.

Definition computeStationTraffic (b : buckets) (stations : list loc) (timeFilter : Z)
  (h : heap) : option (list loc * heap) :=
  let departures :=
    d3_rollup (filterByMinute (departuresByMinute b) timeFilter)
              js_length start_station_id in
  let arrivals :=
    d3_rollup (filterByMinute (arrivalsByMinute b) timeFilter)
              js_length end_station_id in
  array_map (station_callback departures arrivals) stations h.

(** The filter value of a call that omits [timeFilter]. *)
Definition NO_FILTER : Z := -1.

(** ** The visual encodings *)

(** A number read from a field; the traffic fields hold integral counts. *)
Definition as_int (v : value) : option Z :=
  match v with
  | VInt n => Some n
  | _ => None
  end.

(** [d3.max(values)]: [undefined] ([NaN] once coerced by [domain]) on an
    array with no number in it. *)
Fixpoint d3_max (values : list value) : number :=
  match values with
  | [] => NaN
  | v :: rest =>
      match as_int v, d3_max rest with
      | Some n, Num m => Num (Z.max n m)
      | Some n, NaN => Num n
      | None, r => r
      end
  end.

(** The ternary of lines 198 and 251, [d.totalTraffic > 0 ? d.departures /
    d.totalTraffic : 0.5], with the quotient taken in the real numbers. *)
Definition departure_ratio (departures totalTraffic : Z) : R :=
  if 0 <? totalTraffic then (IZR departures / IZR totalTraffic)%R
  else 0.5%R.

(** The state of a [d3.scaleSqrt()] object: its domain and its range. *)
Record sqrt_scale : Type := SqrtScale {
  scale_domain : number * number;
  scale_range : Z * Z
}.

Definition set_range (r : Z * Z) (s : sqrt_scale) : sqrt_scale :=
  {| scale_domain := scale_domain s; scale_range := r |}.

(** d3-scale's square-root scale on real numbers: both the domain and the
    argument go through [transformSqrt], the result is normalised on the
    transformed domain and interpolated linearly on the range. *)
Definition transformSqrt (x : R) : R :=
  if Rlt_dec x 0 then (- sqrt (- x))%R else sqrt x.

Definition normalize (a b x : R) : R :=
  if Req_dec_T (b - a)%R 0%R then 0.5%R else ((x - a) / (b - a))%R.

Definition interpolateNumber (a b t : R) : R := (a * (1 - t) + b * t)%R.

Definition bimap (d0 d1 r0 r1 x : R) : R :=
  if Rlt_dec d1 d0 then interpolateNumber r1 r0 (normalize d1 d0 x)
  else interpolateNumber r0 r1 (normalize d0 d1 x).

(** [scale(x)]; [None] is the NaN that a NaN domain bound produces. *)
Definition scale_apply (s : sqrt_scale) (x : Z) : option R :=
  match scale_domain s with
  | (Num d0, Num d1) =>
      Some (bimap (transformSqrt (IZR d0)) (transformSqrt (IZR d1))
                  (IZR (fst (scale_range s))) (IZR (snd (scale_range s)))
                  (transformSqrt (IZR x)))
  | _ => None
  end.

(** ** The page state after the data has loaded *)

Record page : Type := Page {
  originalStations : list loc;
  station_heap : heap;
  radiusScale : sqrt_scale
}.

Definition totalTraffic_of (h : heap) (station : loc) : value :=
  match h !! station with
  | Some o => get_field o "totalTraffic"
  | None => VUndefined
  end.

(** Lines 174-181: the unfiltered traffic, then the radius scale with its
    domain and its first range. *)
Definition load_page (b : buckets) (stations0 : list loc) (h : heap) : option page :=
  match computeStationTraffic b stations0 NO_FILTER h with
  | Some (stations, h1) =>
      Some {| originalStations := stations0;
              station_heap := h1;
              radiusScale :=
                {| scale_domain := (Num 0, d3_max (map (totalTraffic_of h1) stations));
                   scale_range := (0, 25) |} |}
  | None => None
  end.

(** [updateScatterPlot], lines 232-239: the traffic is recomputed from
    [originalStations] and only the range of the scale is set.  The result
    carries the array bound to the circles. *)
Definition updateScatterPlot (b : buckets) (timeFilter : Z) (p : page)
  : option (list loc * page) :=
  match computeStationTraffic b (originalStations p) timeFilter (station_heap p) with
  | Some (filteredStations, h1) =>
      Some (filteredStations,
            {| originalStations := originalStations p;
               station_heap := h1;
               radiusScale :=
                 if timeFilter =? -1 then set_range (0, 25) (radiusScale p)
                 else set_range (3, 50) (radiusScale p) |})
  | None => None
  end.

(** A run of slider events, each calling [updateScatterPlot]. *)
Fixpoint slide (b : buckets) (filters : list Z) (p : page) : option page :=
  match filters with
  | [] => Some p
  | f :: rest =>
      match updateScatterPlot b f p with
      | Some (_, p1) => slide b rest p1
      | None => None
      end
  end.

(** The [r] attribute of the circle of a station. *)
Definition circle_r (p : page) (station : loc) : option R :=
  match as_int (totalTraffic_of (station_heap p) station) with
  | Some n => scale_apply (radiusScale p) n
  | None => None
  end.

(** ** The window of the specification *)

(** The trips of slot [m] of a bucket array. *)
Definition slot (b : list (list trip)) (m : nat) : list trip := default [] (b !! m).

(** The slots [lo, hi), concatenated in slot order. *)
Definition slots (b : list (list trip)) (lo hi : nat) : list trip :=
  concat (map (slot b) (seq lo (hi - lo))).

(** [width] consecutive slots from [lo] on, counted cyclically. *)
Definition cyclic_window (b : list (list trip)) (lo width : nat) : list trip :=
  concat (map (fun k => slot b ((lo + k) mod MINUTES)%nat) (seq 0 width)).

(** The window bounds as the specification writes them. *)
Definition window_lo (f : Z) : nat := Z.to_nat ((f - 60 + 1440) mod 1440).
Definition window_hi (f : Z) : nat := Z.to_nat ((f + 60) mod 1440).

(** ** What the buckets are meant to hold *)

Definition date_valid (d : date) : bool :=
  match d with
  | InvalidDate => false
  | DateAt _ => true
  end.

(** Both timestamps of a row parse. *)
Definition row_parses (newDate : value → date) (row : rawRow) : bool :=
  date_valid (newDate (raw_started_at row)) && date_valid (newDate (raw_ended_at row)).

Definition start_minute (t : trip) : number := minutesSinceMidnight (started_at t).
Definition end_minute (t : trip) : number := minutesSinceMidnight (ended_at t).

(** A bucket array of 1440 slots holds the trips [ts], each one once, and
    each in the slot of its minute. *)
Definition bucketed (minute_of : trip → number) (arr : list (list trip))
  (ts : list trip) : Prop :=
  length arr = MINUTES
  ∧ concat arr ≡ₚ ts
  ∧ ∀ (m : nat) (t : trip), t ∈ slot arr m → minute_of t = Num (Z.of_nat m).

(** The sum of the slot sizes. *)
Definition slot_total (arr : list (list trip)) : nat :=
  list_sum (map (@length trip) arr).

(** ** Counting trips by station id *)

(** The number of elements of [l] whose key is [id]. *)
Definition count_by {A : Type} (key : A → value) (id : value) (l : list A) : Z :=
  Z.of_nat (length (filter (fun x => key x = id) l)).

(** The number of elements of [l] whose key is one of [ids]. *)
Definition count_known {A : Type} (key : A → value) (ids : list value) (l : list A) : Z :=
  Z.of_nat (length (filter (fun x => key x ∈ ids) l)).

(** The id that [computeStationTraffic] reads from a station. *)
Definition station_id (h : heap) (station : loc) : value :=
  match h !! station with
  | Some o => get_field o "short_name"
  | None => VUndefined
  end.

(** The sum of [totalTraffic] over an array of stations; [None] when a
    station has no integral [totalTraffic]. *)
Fixpoint traffic_sum (h : heap) (stations : list loc) : option Z :=
  match stations with
  | [] => Some 0
  | l :: rest =>
      match as_int (totalTraffic_of h l), traffic_sum h rest with
      | Some n, Some s => Some (n + s)
      | _, _ => None
      end
  end.

(** Every reference of the array points to an object of the heap. *)
Definition allocated (h : heap) (stations : list loc) : Prop :=
  ∀ l, l ∈ stations → is_Some (h !! l).

(** The counts of the ids of [ids], added up. *)
Definition sum_counts {A : Type} (key : A → value) (ids : list value) (l : list A) : Z :=
  foldr (fun id acc => count_by key id l + acc) 0 ids.

(** [station.k], for a station given by its reference. *)
Definition read_field (h : heap) (station : loc) (k : string) : value :=
  match h !! station with
  | Some o => get_field o k
  | None => VUndefined
  end.

(** The values of field [k] on the stations returned by a call. *)
Definition fields_after (b : buckets) (stations : list loc) (f : Z) (h : heap)
  (k : string) : option (list value) :=
  match computeStationTraffic b stations f h with
  | Some (out, h') => Some (map (fun l => read_field h' l k) out)
  | None => None
  end.

(** The sum of [totalTraffic] over the stations returned by a call. *)
Definition total_after (b : buckets) (stations : list loc) (f : Z) (h : heap) : option Z :=
  match computeStationTraffic b stations f h with
  | Some (out, h') => traffic_sum h' out
  | None => None
  end.

(** ** A small data set *)

(** Local midnight of 2024-03-01, in milliseconds. *)
Definition day0 : Z := 19783 * 86400000.

(** A [Date] constructor that knows four timestamps and rejects the rest. *)
Definition sample_newDate (cell : value) : date :=
  match cell with
  | VStr s =>
      if String.eqb s "2024-03-01 00:05:00" then DateAt (day0 + 5 * msPerMinute)
      else if String.eqb s "2024-03-01 00:10:00" then DateAt (day0 + 10 * msPerMinute)
      else if String.eqb s "2024-03-01 23:58:00"
           then DateAt (day0 + 23 * msPerHour + 58 * msPerMinute)
      else if String.eqb s "2024-03-02 00:02:00"
           then DateAt (day0 + 24 * msPerHour + 2 * msPerMinute)
      else InvalidDate
  | _ => InvalidDate
  end.

(** A to B, 00:05 to 00:10. *)
Definition row_AB : rawRow :=
  {| raw_start_station_id := VStr "A"; raw_end_station_id := VStr "B";
     raw_started_at := VStr "2024-03-01 00:05:00";
     raw_ended_at := VStr "2024-03-01 00:10:00" |}.

(** B to A, 23:58 to 00:02 of the next day. *)
Definition row_BA : rawRow :=
  {| raw_start_station_id := VStr "B"; raw_end_station_id := VStr "A";
     raw_started_at := VStr "2024-03-01 23:58:00";
     raw_ended_at := VStr "2024-03-02 00:02:00" |}.

(** A row whose end timestamp is empty. *)
Definition row_bad : rawRow :=
  {| raw_start_station_id := VStr "A"; raw_end_station_id := VStr "B";
     raw_started_at := VStr "2024-03-01 00:05:00";
     raw_ended_at := VStr "" |}.

(** A trip that ends at a station that is not in the station list. *)
Definition row_AZ : rawRow :=
  {| raw_start_station_id := VStr "A"; raw_end_station_id := VStr "Z";
     raw_started_at := VStr "2024-03-01 00:05:00";
     raw_ended_at := VStr "2024-03-01 00:10:00" |}.

Definition sample_rows : list rawRow := [row_AB; row_BA].
Definition sample_trips : list trip := map (convert_dates sample_newDate) sample_rows.
Definition sample_buckets : buckets := snd (d3_csv sample_newDate sample_rows initial_buckets).

Definition station_A : obj :=
  <["short_name" := VStr "A"]> (<["lon" := VInt (-71)]> (<["lat" := VInt 42]> ∅)).
Definition station_B : obj :=
  <["short_name" := VStr "B"]> (<["lon" := VInt (-72)]> (<["lat" := VInt 43]> ∅)).

Definition sample_heap : heap := <[0%nat := station_A]> (<[1%nat := station_B]> ∅).
Definition sample_stations : list loc := [0%nat; 1%nat].

(** ** The rest of the page code *)

#[global] Instance number_eq_dec : EqDecision number.
Proof. solve_decision. Defined.

(** Whether a value counts as true in a condition. *)
Definition truthy (v : value) : bool :=
  match v with
  | VUndefined => false
  | VNull => false
  | VBool b => b
  | VInt n => negb (n =? 0)
  | VDouble _ => true
  | VStr s => negb (String.eqb s "")
  end.

(** [a || b]. *)
Definition js_or (a b : value) : value := if truthy a then a else b.

(** Line 39 of [getCoords]: [station.lon || station.Long || station.long]. *)
Definition getCoords_lon (station : obj) : value :=
  js_or (js_or (get_field station "lon") (get_field station "Long"))
        (get_field station "long").

(** Line 40 of [getCoords]: [station.lat || station.Lat]. *)
Definition getCoords_lat (station : obj) : value :=
  js_or (get_field station "lat") (get_field station "Lat").

(** The departure ratio of a bound station object, lines 198 and 251; [None]
    when a field that is read does not hold an integral number. *)
Definition station_ratio (d : obj) : option R :=
  match as_int (get_field d "totalTraffic") with
  | Some total =>
      if 0 <? total then
        match as_int (get_field d "departures") with
        | Some deps => Some (IZR deps / IZR total)%R
        | None => None
        end
      else Some 0.5%R
  | None => None
  end.

(** [d3.scaleQuantize()]: the thresholds that cut the domain [[x0, x1]] in
    [n + 1] equal parts, and the index of the part of [x]: on the ascending
    array of thresholds, [bisectRight] is the length of the prefix of
    thresholds that are at most [x]. *)
Definition quantize_threshold (x0 x1 : R) (n i : nat) : R :=
  (((INR i + 1) * x1 - (INR i - INR n) * x0) / (INR n + 1))%R.

Fixpoint bisectRight (thresholds : list R) (x : R) : nat :=
  match thresholds with
  | [] => 0%nat
  | d :: rest => if Rle_dec d x then S (bisectRight rest x) else 0%nat
  end.

(** Line 184: [d3.scaleQuantize().domain([0, 1]).range([0, 0.5, 1])]. *)
Definition stationFlow (x : R) : R :=
  nth (bisectRight [quantize_threshold 0 1 2 0; quantize_threshold 0 1 2 1] x)
      [0%R; 0.5%R; 1%R] 0%R.

(** The [--departure-ratio] style of the circle of a station. *)
Definition circle_departure_ratio (p : page) (station : loc) : option R :=
  match station_heap p !! station with
  | Some d => stationFlow <$> station_ratio d
  | None => None
  end.

(** * Properties *)

(** ** Arrays *)

Lemma take_drop_lookup {A : Type} (l : list (list A)) (a n : nat) :
  (a + n ≤ length l)%nat →
  take n (drop a l) = map (fun m => default [] (l !! m)) (seq a n).
Proof.
  intros Hlen. apply list_eq. intros i.
  rewrite list_lookup_fmap.
  destruct (decide (i < n)%nat) as [Hi|Hi].
  - rewrite lookup_take_lt by done. rewrite lookup_drop.
    rewrite lookup_seq_lt by done. simpl.
    destruct (lookup_lt_is_Some_2 l (a + i)%nat) as [x Hx]; [lia|].
    by rewrite Hx.
  - rewrite lookup_take_ge by lia. rewrite lookup_seq_ge by lia. done.
Qed.

Lemma elem_of_concat {A : Type} (x : A) (ls : list (list A)) :
  x ∈ concat ls ↔ ∃ l, x ∈ l ∧ l ∈ ls.
Proof.
  induction ls as [|l ls IH]; simpl.
  - split; [intros H; inversion H|intros (l & _ & H); inversion H].
  - rewrite elem_of_app, IH. split.
    + intros [H|(l' & H1 & H2)]; [exists l|exists l']; split; try done;
        [left|by right].
    + intros (l' & H1 & H2). apply elem_of_cons in H2 as [->|H2]; [by left|].
      right. by exists l'.
Qed.

Lemma seq_from (a n : nat) : seq a n = map (Nat.add a) (seq 0 n).
Proof. symmetry. rewrite <- (Nat.add_0_r a) at 2. apply (fmap_add_seq a 0 n). Qed.

Lemma slice_between {A : Type} (l : list A) (a e : Z) :
  0 ≤ a → a ≤ e → e ≤ Z.of_nat (length l) →
  slice l a (Some e) = take (Z.to_nat e - Z.to_nat a) (drop (Z.to_nat a) l).
Proof.
  intros Ha Hae He. unfold slice, slice_index.
  destruct (Z.ltb_spec a 0); [lia|]. destruct (Z.ltb_spec e 0); [lia|].
  rewrite !Z.min_l by lia. f_equal. lia.
Qed.

Lemma slice_from {A : Type} (l : list A) (a : Z) :
  0 ≤ a → a ≤ Z.of_nat (length l) →
  slice l a None = drop (Z.to_nat a) l.
Proof.
  intros Ha Hal. unfold slice, slice_index.
  destruct (Z.ltb_spec a 0); [lia|].
  rewrite Z.min_l by lia. apply take_ge. rewrite length_drop. lia.
Qed.

Lemma slots_take_drop (b : list (list trip)) (lo hi : nat) :
  (lo ≤ hi)%nat → (hi ≤ length b)%nat →
  slots b lo hi = concat (take (hi - lo) (drop lo b)).
Proof.
  intros Hlo Hhi. unfold slots. rewrite take_drop_lookup by lia. done.
Qed.

Lemma elem_of_slots (b : list (list trip)) (lo hi : nat) (t : trip) :
  t ∈ slots b lo hi ↔ ∃ m, (lo ≤ m < hi)%nat ∧ t ∈ slot b m.
Proof.
  unfold slots. rewrite elem_of_concat. split.
  - intros (ts & Ht & Hts). apply list_elem_of_fmap in Hts as (m & -> & Hm).
    apply elem_of_seq in Hm. exists m. split; [lia|done].
  - intros (m & Hm & Ht). exists (slot b m). split; [done|].
    apply list_elem_of_fmap. exists m. split; [done|]. apply elem_of_seq. lia.
Qed.

(** The two remainders of [filterByMinute] for a filter in range. *)
Lemma window_cases (f : Z) :
  0 ≤ f ≤ 1439 →
  let minMinute := Z.rem (f - 60 + 1440) 1440 in
  let maxMinute := Z.rem (f + 60) 1440 in
  minMinute = (f - 60 + 1440) mod 1440 ∧ maxMinute = (f + 60) mod 1440 ∧
  ((60 ≤ f ≤ 1379 ∧ minMinute = f - 60 ∧ maxMinute = f + 60)
   ∨ (f < 60 ∧ minMinute = f + 1380 ∧ maxMinute = f + 60)
   ∨ (1380 ≤ f ∧ minMinute = f - 60 ∧ maxMinute = f - 1380)).
Proof.
  intros Hf. cbv zeta.
  rewrite !Z.rem_mod_nonneg by lia.
  split; [done|]. split; [done|].
  destruct (decide (f < 60)) as [H1|H1]; [right; left|].
  - split; [done|]. split; [rewrite Z.mod_small; lia|rewrite Z.mod_small; lia].
  - destruct (decide (f < 1380)) as [H2|H2]; [left|right; right].
    + split; [lia|]. split.
      * replace (f - 60 + 1440) with (f - 60 + 1 * 1440) by lia.
        rewrite Z_mod_plus_full. rewrite Z.mod_small; lia.
      * rewrite Z.mod_small; lia.
    + split; [lia|]. split.
      * replace (f - 60 + 1440) with (f - 60 + 1 * 1440) by lia.
        rewrite Z_mod_plus_full. rewrite Z.mod_small; lia.
      * replace (f + 60) with (f - 1380 + 1 * 1440) by lia.
        rewrite Z_mod_plus_full. rewrite Z.mod_small; lia.
Qed.

(** ** The window query *)

Lemma filterByMinute_slots (b : list (list trip)) (f : Z) :
  length b = MINUTES → 0 ≤ f ≤ 1439 →
  filterByMinute b f =
    if decide (window_lo f ≤ window_hi f)%nat
    then slots b (window_lo f) (window_hi f)
    else slots b (window_lo f) MINUTES ++ slots b 0 (window_hi f).
Proof.
  intros Hlen Hf. unfold filterByMinute, window_lo, window_hi, flat.
  destruct (Z.eqb_spec f (-1)); [lia|].
  destruct (window_cases f Hf) as (Hlo & Hhi & Hcases). cbv zeta in *.
  rewrite Hlo, Hhi in *. unfold MINUTES in *.
  set (lo := (f - 60 + 1440) mod 1440) in *.
  set (hi := (f + 60) mod 1440) in *.
  assert (0 ≤ lo < 1440 ∧ 0 ≤ hi < 1440) as [Hlo' Hhi'] by lia.
  destruct (Z.gtb_spec lo hi) as [Hgt|Hle].
  - rewrite decide_False by lia.
    rewrite slice_from by lia. rewrite slice_between by lia.
    rewrite concat_app. f_equal.
    + rewrite slots_take_drop by lia. f_equal.
      symmetry. apply take_ge. rewrite length_drop. lia.
    + rewrite slots_take_drop by lia. done.
  - rewrite decide_True by lia.
    rewrite slice_between by lia. rewrite slots_take_drop by lia. done.
Qed.

Lemma cyclic_window_slots (b : list (list trip)) (f : Z) :
  0 ≤ f ≤ 1439 →
  cyclic_window b (window_lo f) 120 =
    if decide (window_lo f ≤ window_hi f)%nat
    then slots b (window_lo f) (window_hi f)
    else slots b (window_lo f) MINUTES ++ slots b 0 (window_hi f).
Proof.
  intros Hf. unfold cyclic_window, slots, window_lo, window_hi.
  destruct (window_cases f Hf) as (Hlo & Hhi & Hcases). cbv zeta in *.
  rewrite <- Hlo, <- Hhi. unfold MINUTES.
  set (lo := Z.rem (f - 60 + 1440) 1440) in *.
  set (hi := Z.rem (f + 60) 1440) in *.
  assert (Hnowrap : ∀ a n : nat, (a + n ≤ 1440)%nat →
    map (fun k => slot b ((a + k) mod 1440)%nat) (seq 0 n) = map (slot b) (seq a n)).
  { intros a n Han. rewrite (seq_from a n).
    rewrite map_map. apply map_ext_in. intros k Hk. apply in_seq in Hk.
    rewrite Nat.mod_small by lia. done. }
  assert (Hwrap : ∀ a n : nat, (a ≤ 1440)%nat → (n ≤ 1440)%nat →
    map (fun k => slot b ((a + k) mod 1440)%nat) (seq (1440 - a) n) = map (slot b) (seq 0 n)).
  { intros a n Ha Hn. rewrite (seq_from (1440 - a) n).
    rewrite map_map. apply map_ext_in. intros k Hk. apply in_seq in Hk.
    replace (a + (1440 - a + k))%nat with (k + 1 * 1440)%nat by lia.
    rewrite Nat.Div0.mod_add. rewrite Nat.mod_small by lia. done. }
  destruct Hcases as [(Hr & -> & ->)|[(Hr & -> & ->)|(Hr & -> & ->)]].
  - rewrite decide_True by lia.
    replace (Z.to_nat (f + 60) - Z.to_nat (f - 60))%nat with 120%nat by lia.
    apply (f_equal (@concat trip)). apply Hnowrap. lia.
  - rewrite decide_False by lia.
    rewrite <- concat_app. apply (f_equal (@concat trip)).
    replace 120%nat with ((1440 - Z.to_nat (f + 1380)) + Z.to_nat (f + 60))%nat at 1 by lia.
    rewrite seq_app, map_app. simpl "+"%nat. f_equal.
    + apply Hnowrap. lia.
    + rewrite Nat.sub_0_r. apply Hwrap; lia.
  - rewrite decide_False by lia.
    rewrite <- concat_app. apply (f_equal (@concat trip)).
    replace 120%nat with ((1440 - Z.to_nat (f - 60)) + Z.to_nat (f - 1380))%nat at 1 by lia.
    rewrite seq_app, map_app. simpl "+"%nat. f_equal.
    + apply Hnowrap. lia.
    + rewrite Nat.sub_0_r. apply Hwrap; lia.
Qed.

Lemma window_hi_excluded (f : Z) (k : nat) :
  0 ≤ f ≤ 1439 → (k < 120)%nat →
  ((window_lo f + k) mod MINUTES)%nat ≠ window_hi f.
Proof.
  intros Hf Hk. unfold window_lo, window_hi, MINUTES.
  destruct (window_cases f Hf) as (Hlo & Hhi & Hcases). cbv zeta in *.
  rewrite <- Hlo, <- Hhi.
  destruct Hcases as [(Hr & -> & ->)|[(Hr & -> & ->)|(Hr & -> & ->)]].
  - rewrite Nat.mod_small by lia. lia.
  - destruct (decide (Z.to_nat (f + 1380) + k < 1440)%nat) as [Hs|Hs].
    + rewrite Nat.mod_small by lia. lia.
    + replace (Z.to_nat (f + 1380) + k)%nat
        with ((Z.to_nat (f + 1380) + k - 1440) + 1 * 1440)%nat by lia.
      rewrite Nat.Div0.mod_add. rewrite Nat.mod_small by lia. lia.
  - destruct (decide (Z.to_nat (f - 60) + k < 1440)%nat) as [Hs|Hs].
    + rewrite Nat.mod_small by lia. lia.
    + replace (Z.to_nat (f - 60) + k)%nat
        with ((Z.to_nat (f - 60) + k - 1440) + 1 * 1440)%nat by lia.
      rewrite Nat.Div0.mod_add. rewrite Nat.mod_small by lia. lia.
Qed.

(** C2. For a filter [f] in [0, 1439] and a bucket array of 1440 slots,
    [filterByMinute] returns the concatenation of the 120 consecutive
    cyclic slots that start at [lo = (f - 60 + 1440) mod 1440]; slot
    [hi = (f + 60) mod 1440] is not among them; without wraparound the
    result is slots [lo, hi), with wraparound it is slots [lo, 1440)
    followed by slots [0, hi).  For [f = 30] the result is slots
    [1410, 1440) then [0, 90): a trip of slot 1430 and a trip of slot 50 are
    in it, a trip that is only in slot 200 is not. *)
Theorem filterByMinute_cyclic_window (b : list (list trip)) (f : Z) :
  length b = MINUTES → 0 ≤ f ≤ 1439 →
  filterByMinute b f = cyclic_window b (window_lo f) 120
  ∧ (∀ k, (k < 120)%nat → ((window_lo f + k) mod MINUTES)%nat ≠ window_hi f)
  ∧ ((window_lo f ≤ window_hi f)%nat →
       filterByMinute b f = slots b (window_lo f) (window_hi f))
  ∧ ((window_lo f > window_hi f)%nat →
       filterByMinute b f = slots b (window_lo f) MINUTES ++ slots b 0 (window_hi f))
  ∧ filterByMinute b 30 = slots b 1410 1440 ++ slots b 0 90
  ∧ (∀ t, t ∈ slot b 1430 → t ∈ filterByMinute b 30)
  ∧ (∀ t, t ∈ slot b 50 → t ∈ filterByMinute b 30)
  ∧ (∀ t, (∀ m, t ∈ slot b m → m = 200%nat) → t ∉ filterByMinute b 30).
Proof.
  intros Hlen Hf.
  assert (H30 : filterByMinute b 30 = slots b 1410 1440 ++ slots b 0 90).
  { rewrite (filterByMinute_slots b 30 Hlen) by lia. reflexivity. }
  split; [|split; [|split; [|split; [|split; [|split; [|split]]]]]].
  - rewrite cyclic_window_slots by done. by apply filterByMinute_slots.
  - intros k Hk. by apply window_hi_excluded.
  - intros Hle. rewrite filterByMinute_slots by done. by rewrite decide_True.
  - intros Hgt. rewrite filterByMinute_slots by done. rewrite decide_False; [done|lia].
  - exact H30.
  - intros t Ht. rewrite H30, elem_of_app, !elem_of_slots.
    left. exists 1430%nat. split; [lia|done].
  - intros t Ht. rewrite H30, elem_of_app, !elem_of_slots.
    right. exists 50%nat. split; [lia|done].
  - intros t Honly. rewrite H30, elem_of_app, !elem_of_slots.
    intros [(m & Hm & Ht)|(m & Hm & Ht)]; apply Honly in Ht; lia.
Qed.

(** ** Ingestion *)

Lemma minutesSinceMidnight_valid (t : Z) :
  ∃ m : nat, (m < MINUTES)%nat ∧ minutesSinceMidnight (DateAt t) = Num (Z.of_nat m).
Proof.
  unfold minutesSinceMidnight, MINUTES. simpl.
  pose proof (Z.mod_pos_bound (t / msPerHour) 24 ltac:(lia)) as Hh.
  pose proof (Z.mod_pos_bound (t / msPerMinute) 60 ltac:(lia)) as Hm.
  exists (Z.to_nat ((t / msPerHour) mod 24 * 60 + (t / msPerMinute) mod 60)).
  split; [lia|]. f_equal. lia.
Qed.

Lemma minutesSinceMidnight_invalid : minutesSinceMidnight InvalidDate = NaN.
Proof. reflexivity. Qed.

(** A push that does not throw names a slot of the array. *)
Lemma push_at_Some (arr arr' : list (list trip)) (i : number) (x : trip) :
  push_at arr i x = Some arr' →
  ∃ m : nat, i = Num (Z.of_nat m) ∧ (m < length arr)%nat
             ∧ arr' = <[m := slot arr m ++ [x]]> arr.
Proof.
  unfold push_at. destruct i as [|n]; [done|].
  destruct (Z.leb_spec 0 n) as [Hn|Hn]; [|done].
  destruct (arr !! Z.to_nat n) as [s|] eqn:Hs; [|done].
  intros [= <-]. exists (Z.to_nat n). split; [f_equal; lia|].
  split; [by eapply lookup_lt_Some|]. unfold slot. by rewrite Hs.
Qed.

Lemma push_at_slot (arr : list (list trip)) (m : nat) (x : trip) :
  (m < length arr)%nat →
  push_at arr (Num (Z.of_nat m)) x = Some (<[m := slot arr m ++ [x]]> arr).
Proof.
  intros Hm. unfold push_at, slot.
  destruct (Z.leb_spec 0 (Z.of_nat m)) as [_|]; [|lia].
  rewrite Nat2Z.id.
  destruct (lookup_lt_is_Some_2 arr m Hm) as [s Hs]. by rewrite Hs.
Qed.

Lemma concat_push (arr : list (list trip)) (m : nat) (x : trip) :
  (m < length arr)%nat →
  concat (<[m := slot arr m ++ [x]]> arr) ≡ₚ concat arr ++ [x].
Proof.
  intros Hm. destruct (lookup_lt_is_Some_2 arr m Hm) as [s Hs].
  unfold slot. rewrite Hs. simpl.
  rewrite insert_take_drop by done.
  rewrite <- (take_drop_middle arr m s Hs) at 3.
  rewrite !concat_app. simpl. rewrite <- !app_assoc.
  apply Permutation_app_head. apply Permutation_app_head.
  apply Permutation_app_comm.
Qed.

Lemma slot_push (arr : list (list trip)) (m k : nat) (x t : trip) :
  (m < length arr)%nat →
  t ∈ slot (<[m := slot arr m ++ [x]]> arr) k ↔ t ∈ slot arr k ∨ (k = m ∧ t = x).
Proof.
  intros Hm. unfold slot at 1. rewrite list_lookup_insert.
  destruct (decide (m = k ∧ (m < length arr)%nat)) as [[-> _]|Hne]; simpl.
  - rewrite elem_of_app, list_elem_of_singleton. fold (slot arr k).
    split; [intros [H|H]; [by left|by right]|intros [H|[_ H]]; [by left|by right]].
  - fold (slot arr k). split; [by left|].
    intros [H|[-> _]]; [done|]. exfalso. by apply Hne.
Qed.

Lemma bucketed_empty (minute_of : trip → number) :
  bucketed minute_of empty_buckets [].
Proof.
  unfold bucketed, empty_buckets. split; [apply length_replicate|]. split.
  - induction MINUTES; simpl; [done|]. by rewrite <- IHn at 2.
  - intros m t. unfold slot.
    destruct (replicate MINUTES [] !! m) as [s|] eqn:Hs; simpl.
    + apply lookup_replicate in Hs as [-> _]. intros H. inversion H.
    + intros H. inversion H.
Qed.

Lemma bucketed_push (minute_of : trip → number) (arr : list (list trip))
  (ts : list trip) (m : nat) (x : trip) :
  bucketed minute_of arr ts → (m < length arr)%nat → minute_of x = Num (Z.of_nat m) →
  bucketed minute_of (<[m := slot arr m ++ [x]]> arr) (ts ++ [x]).
Proof.
  intros (Hlen & Hperm & Hslot) Hm Hx. split; [by rewrite length_insert|]. split.
  - rewrite concat_push by done. by rewrite Hperm.
  - intros k t Ht. apply slot_push in Ht as [Ht|[-> ->]]; [|done..].
    by apply Hslot.
Qed.

Lemma bucketed_total (minute_of : trip → number) (arr : list (list trip))
  (ts : list trip) :
  bucketed minute_of arr ts → slot_total arr = length ts.
Proof.
  intros (_ & Hperm & _). unfold slot_total.
  rewrite <- length_concat. by rewrite Hperm.
Qed.

Section IngestionFacts.
Context (newDate : value → date).

(** The row callback returns normally exactly on a row whose two
    timestamps parse, having pushed the trip once on each array. *)
Lemma row_callback_Normal (row : rawRow) (b b' : buckets) (t : trip) :
  row_callback newDate row b = (Normal t, b') →
  t = convert_dates newDate row
  ∧ ∃ ms me : nat,
      start_minute t = Num (Z.of_nat ms) ∧ (ms < length (departuresByMinute b))%nat
      ∧ end_minute t = Num (Z.of_nat me) ∧ (me < length (arrivalsByMinute b))%nat
      ∧ departuresByMinute b' =
          <[ms := slot (departuresByMinute b) ms ++ [t]]> (departuresByMinute b)
      ∧ arrivalsByMinute b' =
          <[me := slot (arrivalsByMinute b) me ++ [t]]> (arrivalsByMinute b).
Proof.
  unfold row_callback.
  destruct (push_at (departuresByMinute b) _ _) as [deps|] eqn:Hd; [|done].
  simpl. destruct (push_at (arrivalsByMinute b) _ _) as [arrs|] eqn:Ha; [|done].
  intros [= <- <-]. split; [done|].
  apply push_at_Some in Hd as (ms & Hms & Hlt & ->).
  apply push_at_Some in Ha as (me & Hme & Hlt' & ->).
  by exists ms, me.
Qed.

Lemma row_callback_parses (row : rawRow) (b : buckets) :
  length (departuresByMinute b) = MINUTES →
  length (arrivalsByMinute b) = MINUTES →
  row_parses newDate row = true →
  ∃ b', row_callback newDate row b = (Normal (convert_dates newDate row), b').
Proof.
  intros Hd Ha Hrow. unfold row_parses in Hrow.
  apply andb_prop in Hrow as [Hs He]. unfold row_callback. simpl.
  destruct (newDate (raw_started_at row)) as [|s]; [done|].
  destruct (newDate (raw_ended_at row)) as [|e]; [done|].
  destruct (minutesSinceMidnight_valid s) as (ms & Hms & ->).
  destruct (minutesSinceMidnight_valid e) as (me & Hme & ->).
  rewrite push_at_slot by lia. rewrite push_at_slot by lia. eauto.
Qed.

(** On a row with an unparsable timestamp the callback throws; the
    arrivals are as they were, the departures have the trip exactly when
    the start timestamp did parse. *)
Lemma row_callback_throws (row : rawRow) (b : buckets) :
  length (departuresByMinute b) = MINUTES →
  row_parses newDate row = false →
  ∃ b', row_callback newDate row b = (TypeError, b')
        ∧ arrivalsByMinute b' = arrivalsByMinute b
        ∧ match newDate (raw_started_at row) with
          | InvalidDate => departuresByMinute b' = departuresByMinute b
          | DateAt _ =>
              ∃ ms : nat,
                start_minute (convert_dates newDate row) = Num (Z.of_nat ms)
                ∧ (ms < MINUTES)%nat
                ∧ departuresByMinute b' =
                    <[ms := slot (departuresByMinute b) ms ++ [convert_dates newDate row]]>
                      (departuresByMinute b)
          end.
Proof.
  intros Hd Hrow. unfold row_parses in Hrow. unfold row_callback, start_minute.
  cbn [convert_dates started_at ended_at].
  destruct (newDate (raw_started_at row)) as [|s] eqn:Hs.
  - exists b. done.
  - destruct (newDate (raw_ended_at row)) as [|e] eqn:He; [|done].
    destruct (minutesSinceMidnight_valid s) as (ms & Hms & Heq). rewrite Heq.
    rewrite push_at_slot by lia.
    cbn [departuresByMinute arrivalsByMinute minutesSinceMidnight getHours
         getMinutes num_mul num_add push_at].
    eexists. split; [done|]. split; [done|]. exists ms. done.
Qed.
End IngestionFacts.

Section IngestionRun.
Context (newDate : value → date).

Lemma d3_csv_Normal (rows : list rawRow) :
  ∀ (b b' : buckets) (ts0 ts : list trip),
    bucketed start_minute (departuresByMinute b) ts0 →
    bucketed end_minute (arrivalsByMinute b) ts0 →
    d3_csv newDate rows b = (Normal ts, b') →
    ts = map (convert_dates newDate) rows
    ∧ bucketed start_minute (departuresByMinute b') (ts0 ++ ts)
    ∧ bucketed end_minute (arrivalsByMinute b') (ts0 ++ ts).
Proof.
  induction rows as [|row rest IH]; intros b b' ts0 ts Hd Ha; simpl.
  - intros [= <- <-]. by rewrite app_nil_r.
  - destruct (row_callback newDate row b) as [[t|] b1] eqn:Hrow; [|done].
    destruct (d3_csv newDate rest b1) as [[ts'|] b2] eqn:Hrest; [|done].
    intros [= <- <-].
    apply row_callback_Normal in Hrow as (-> & ms & me & Hms & Hlt & Hme & Hlt' & Hd1 & Ha1).
    apply IH with (ts0 := ts0 ++ [convert_dates newDate row]) in Hrest as (-> & Hd2 & Ha2).
    + rewrite <- app_assoc in Hd2, Ha2. done.
    + rewrite Hd1. by apply bucketed_push.
    + rewrite Ha1. by apply bucketed_push.
Qed.

Lemma d3_csv_parses (rows : list rawRow) :
  ∀ b : buckets,
    length (departuresByMinute b) = MINUTES →
    length (arrivalsByMinute b) = MINUTES →
    Forall (fun row => row_parses newDate row = true) rows →
    ∃ b', d3_csv newDate rows b = (Normal (map (convert_dates newDate) rows), b')
          ∧ length (departuresByMinute b') = MINUTES
          ∧ length (arrivalsByMinute b') = MINUTES.
Proof.
  induction rows as [|row rest IH]; intros b Hd Ha Hrows; simpl.
  - by exists b.
  - apply Forall_cons in Hrows as [Hrow Hrest].
    destruct (row_callback_parses newDate row b Hd Ha Hrow) as (b1 & Hb1).
    rewrite Hb1.
    apply row_callback_Normal in Hb1 as (_ & ms & me & _ & _ & _ & _ & Hd1 & Ha1).
    destruct (IH b1) as (b2 & Hb2 & Hd2 & Ha2); [| |done|].
    + by rewrite Hd1, length_insert.
    + by rewrite Ha1, length_insert.
    + rewrite Hb2. by exists b2.
Qed.

(** The parse stops at the first row that throws: the rows after it are
    never given to the callback. *)
Lemma d3_csv_stops (good rest : list rawRow) (bad : rawRow) (b b1 b2 : buckets) :
  d3_csv newDate good b = (Normal (map (convert_dates newDate) good), b1) →
  row_callback newDate bad b1 = (TypeError, b2) →
  d3_csv newDate (good ++ bad :: rest) b = (TypeError, b2).
Proof.
  revert b. induction good as [|row good IH]; intros b; simpl.
  - intros [= ->] Hbad. by rewrite Hbad.
  - destruct (row_callback newDate row b) as [[t|] b0]; [|done].
    destruct (d3_csv newDate good b0) as [[ts|] b3] eqn:Hgood; [|done].
    intros [= -> Hts ->] Hbad.
    rewrite (IH b0); [done| |done]. by rewrite Hgood, Hts.
Qed.
End IngestionRun.

(** C5. After an ingestion that returned normally, the ingested trips are
    the converted rows.  The departures array has 1440 slots; its slots
    together hold every trip once; a trip that sits in slot [m] has a
    valid start time, of local milliseconds [ms], and
    [m = hour * 60 + minute] with [hour = floor (ms / 3600000) mod 24] and
    [minute = floor (ms / 60000) mod 60]; every trip sits in that slot and
    in no other; so the sizes of the slots add up to the number of trips.
    Likewise the arrivals array with the end times. *)
Theorem ingested_trips_bucketed (newDate : value → date) (rows : list rawRow)
  (trips : list trip) (b : buckets) :
  d3_csv newDate rows initial_buckets = (Normal trips, b) →
  trips = map (convert_dates newDate) rows
  ∧ length (departuresByMinute b) = 1440%nat
  ∧ length (arrivalsByMinute b) = 1440%nat
  ∧ concat (departuresByMinute b) ≡ₚ trips
  ∧ concat (arrivalsByMinute b) ≡ₚ trips
  ∧ (∀ t (m : nat), t ∈ slot (departuresByMinute b) m →
       ∃ ms, started_at t = DateAt ms
             ∧ Z.of_nat m = (ms / 3600000) mod 24 * 60 + (ms / 60000) mod 60)
  ∧ (∀ t (m : nat), t ∈ slot (arrivalsByMinute b) m →
       ∃ ms, ended_at t = DateAt ms
             ∧ Z.of_nat m = (ms / 3600000) mod 24 * 60 + (ms / 60000) mod 60)
  ∧ (∀ t, t ∈ trips →
       ∃ ms, started_at t = DateAt ms
             ∧ t ∈ slot (departuresByMinute b)
                   (Z.to_nat ((ms / 3600000) mod 24 * 60 + (ms / 60000) mod 60)))
  ∧ (∀ t, t ∈ trips →
       ∃ ms, ended_at t = DateAt ms
             ∧ t ∈ slot (arrivalsByMinute b)
                   (Z.to_nat ((ms / 3600000) mod 24 * 60 + (ms / 60000) mod 60)))
  ∧ (∀ t (m m' : nat), t ∈ slot (departuresByMinute b) m →
       t ∈ slot (departuresByMinute b) m' → m = m')
  ∧ (∀ t (m m' : nat), t ∈ slot (arrivalsByMinute b) m →
       t ∈ slot (arrivalsByMinute b) m' → m = m')
  ∧ slot_total (departuresByMinute b) = length trips
  ∧ slot_total (arrivalsByMinute b) = length trips.
Proof.
  intros Hrun.
  apply (d3_csv_Normal newDate rows initial_buckets b [] trips) in Hrun
    as (Hts & Hd & Ha); [|apply bucketed_empty..].
  simpl in Hd, Ha.
  assert (Hminute : ∀ (d : date) (m : nat),
            minutesSinceMidnight d = Num (Z.of_nat m) →
            ∃ ms, d = DateAt ms
                  ∧ Z.of_nat m = (ms / 3600000) mod 24 * 60 + (ms / 60000) mod 60).
  { intros [|ms] m; [done|]. intros [= Hm]. exists ms. split; [done|].
    unfold msPerHour, msPerMinute in Hm. lia. }
  assert (Hin : ∀ (at_ : trip → date) (arr : list (list trip)),
            bucketed (fun t => minutesSinceMidnight (at_ t)) arr trips →
            ∀ t, t ∈ trips →
              ∃ ms, at_ t = DateAt ms
                    ∧ t ∈ slot arr
                        (Z.to_nat ((ms / 3600000) mod 24 * 60 + (ms / 60000) mod 60))).
  { intros at_ arr (_ & Hperm & Hslot) t Ht.
    rewrite <- Hperm in Ht. apply elem_of_concat in Ht as (s & Hts' & Hs).
    apply list_elem_of_lookup in Hs as (k & Hk).
    assert (Htk : t ∈ slot arr k) by (unfold slot; by rewrite Hk).
    destruct (Hminute _ _ (Hslot k t Htk)) as (ms & Hms & Heq).
    exists ms. split; [done|]. rewrite <- Heq. by rewrite Nat2Z.id. }
  assert (Hone : ∀ k arr, bucketed k arr trips →
            ∀ t (m m' : nat), t ∈ slot arr m → t ∈ slot arr m' → m = m').
  { intros k arr (_ & _ & Hslot) t m m' Hm Hm'.
    apply Hslot in Hm, Hm'. rewrite Hm in Hm'. injection Hm' as Heq. lia. }
  split; [done|].
  split; [by destruct Hd as (? & _)|]. split; [by destruct Ha as (? & _)|].
  split; [by destruct Hd as (_ & ? & _)|]. split; [by destruct Ha as (_ & ? & _)|].
  split; [intros t m Ht; apply Hminute; by apply Hd|].
  split; [intros t m Ht; apply Hminute; by apply Ha|].
  split; [by apply (Hin started_at)|]. split; [by apply (Hin ended_at)|].
  split; [by eapply Hone|]. split; [by eapply Hone|].
  split; by eapply bucketed_total.
Qed.

(** A batch with a first bad row: the buckets after the good rows, and the
    buckets that the throw leaves behind, which do not depend on the rows
    that follow. *)
Lemma d3_csv_bad_row (newDate : value → date) (good : list rawRow) (bad : rawRow) :
  Forall (fun row => row_parses newDate row = true) good →
  row_parses newDate bad = false →
  ∃ b0 b,
    d3_csv newDate good initial_buckets = (Normal (map (convert_dates newDate) good), b0)
    ∧ bucketed start_minute (departuresByMinute b0) (map (convert_dates newDate) good)
    ∧ bucketed end_minute (arrivalsByMinute b0) (map (convert_dates newDate) good)
    ∧ (∀ rest, d3_csv newDate (good ++ bad :: rest) initial_buckets = (TypeError, b))
    ∧ arrivalsByMinute b = arrivalsByMinute b0
    ∧ bucketed start_minute (departuresByMinute b)
        (map (convert_dates newDate) good
         ++ if date_valid (newDate (raw_started_at bad))
            then [convert_dates newDate bad] else []).
Proof.
  intros Hgood Hbad.
  destruct (d3_csv_parses newDate good initial_buckets) as (b0 & Hb0 & Hd0 & Ha0);
    [apply length_replicate..|done|].
  destruct (d3_csv_Normal newDate good initial_buckets b0 [] _
              (bucketed_empty _) (bucketed_empty _) Hb0) as (_ & Hd & Ha).
  simpl in Hd, Ha.
  destruct (row_callback_throws newDate bad b0 Hd0 Hbad) as (b & Hb & Harr & Hdep).
  exists b0, b. split; [done|]. split; [done|]. split; [done|].
  split; [intros rest; by eapply d3_csv_stops|]. split; [done|].
  destruct (newDate (raw_started_at bad)) as [|s]; simpl.
  - rewrite Hdep. by rewrite app_nil_r.
  - destruct Hdep as (ms & Hms & Hlt & ->). apply bucketed_push; [done|lia|done].
Qed.

(** C7, as the code has it. The rows are converted in order; at the first
    row with a timestamp that does not parse the callback throws and the
    parse ends there: the outcome and the buckets are the same whatever
    rows follow, so none of them is ingested.  The rows before it were
    ingested whole: a batch of parsable rows returns normally with both
    arrays holding exactly its trips, and after the throw the arrivals
    array still holds exactly those trips and the departures array still
    holds each of them. *)
Theorem malformed_row_ends_ingestion (newDate : value → date)
  (good : list rawRow) (bad : rawRow) :
  Forall (fun row => row_parses newDate row = true) good →
  row_parses newDate bad = false →
  (∃ b0, d3_csv newDate good initial_buckets
           = (Normal (map (convert_dates newDate) good), b0)
         ∧ bucketed start_minute (departuresByMinute b0) (map (convert_dates newDate) good)
         ∧ bucketed end_minute (arrivalsByMinute b0) (map (convert_dates newDate) good))
  ∧ (∃ b, (∀ rest, d3_csv newDate (good ++ bad :: rest) initial_buckets = (TypeError, b))
          ∧ bucketed end_minute (arrivalsByMinute b) (map (convert_dates newDate) good)
          ∧ ∀ t, t ∈ map (convert_dates newDate) good → t ∈ concat (departuresByMinute b)).
Proof.
  intros Hgood Hbad.
  destruct (d3_csv_bad_row newDate good bad Hgood Hbad)
    as (b0 & b & Hb0 & Hd0 & Ha0 & Hrest & Harr & Hdep).
  split; [by exists b0|].
  exists b. split; [done|]. split; [by rewrite Harr|].
  intros t Ht. destruct Hdep as (_ & Hperm & _). rewrite Hperm.
  apply elem_of_app. by left.
Qed.

(** ** The rollup *)

Lemma map_get_group_add {A : Type} (k id : value) (x : A) (groups : list (value * list A)) :
  map_get (group_add k x groups) id =
    if decide (id = k) then Some (default [] (map_get groups id) ++ [x])
    else map_get groups id.
Proof.
  induction groups as [|[k' xs] groups IH]; simpl.
  - destruct (decide (id = k)); done.
  - destruct (decide (k = k')) as [->|Hk]; simpl.
    + destruct (decide (id = k')); done.
    + destruct (decide (id = k')) as [->|Hid].
      * rewrite decide_False by done. done.
      * exact IH.
Qed.

Lemma map_get_foldl_group {A : Type} (key : A → value) (id : value) (values : list A) :
  ∀ groups : list (value * list A),
    default [] (map_get (foldl (fun g x => group_add (key x) x g) groups values) id)
    = default [] (map_get groups id) ++ filter (fun x => key x = id) values.
Proof.
  induction values as [|x values IH]; intros groups; simpl.
  - by rewrite app_nil_r.
  - rewrite IH, map_get_group_add. rewrite filter_cons.
    destruct (decide (key x = id)) as [Hx|Hx].
    + rewrite decide_True by done. simpl. by rewrite <- app_assoc.
    + rewrite decide_False by done. done.
Qed.

Lemma map_get_foldl_group_None {A : Type} (key : A → value) (id : value)
  (values : list A) :
  ∀ groups : list (value * list A),
    map_get (foldl (fun g x => group_add (key x) x g) groups values) id = None
    ↔ map_get groups id = None ∧ filter (fun x => key x = id) values = [].
Proof.
  induction values as [|x values IH]; intros groups; simpl.
  - split; [done|by intros [? _]].
  - rewrite IH, map_get_group_add, filter_cons.
    destruct (decide (key x = id)) as [Hx|Hx].
    + rewrite decide_True by done. split; [by intros [? _]|by intros [_ ?]].
    + rewrite decide_False by done. done.
Qed.

Lemma map_get_rollup {A B : Type} (values : list A) (reduce : list A → B)
  (key : A → value) (id : value) :
  map_get (d3_rollup values reduce key) id = reduce <$> map_get (d3_group values key) id.
Proof.
  unfold d3_rollup. induction (d3_group values key) as [|[k xs] groups IH]; simpl.
  - done.
  - destruct (decide (id = k)); [done|exact IH].
Qed.

(** [rollup.get(id) ?? 0] is the number of values whose key is [id], and
    the key is absent from the map exactly when there is no such value. *)
Lemma rollup_count {A : Type} (values : list A) (key : A → value) (id : value) :
  default 0 (map_get (d3_rollup values js_length key) id) = count_by key id values
  ∧ (map_get (d3_rollup values js_length key) id = None ↔ count_by key id values = 0).
Proof.
  rewrite map_get_rollup. unfold d3_group, count_by.
  pose proof (map_get_foldl_group key id values []) as Hgroup.
  pose proof (map_get_foldl_group_None key id values []) as Hnone.
  simpl in Hgroup, Hnone.
  destruct (map_get (foldl _ [] values) id) as [xs|]; simpl in *.
  - subst xs. split; [done|]. split; [done|]. intros Hz.
    destruct (filter _ values); [|simpl in Hz; lia].
    destruct Hnone as [_ Hnone]. by specialize (Hnone (conj eq_refl eq_refl)).
  - rewrite <- Hgroup. split; [done|]. done.
Qed.

(** ** The writes of [computeStationTraffic] *)

Section Writes.
Context (D A : list (value * Z)).

Lemma write_traffic_other (o : obj) (k : string) :
  k ≠ "arrivals" → k ≠ "departures" → k ≠ "totalTraffic" →
  write_traffic D A o !! k = o !! k.
Proof.
  intros H1 H2 H3. unfold write_traffic.
  rewrite !lookup_insert_ne by done. done.
Qed.

Lemma write_traffic_id (o : obj) :
  get_field (write_traffic D A o) "short_name" = get_field o "short_name".
Proof. unfold get_field. by rewrite write_traffic_other. Qed.

Lemma write_traffic_arrivals (o : obj) :
  write_traffic D A o !! "arrivals"
  = Some (VInt (default 0 (map_get A (get_field o "short_name")))).
Proof.
  unfold write_traffic. rewrite !lookup_insert_ne by done.
  by rewrite lookup_insert_eq.
Qed.

Lemma write_traffic_departures (o : obj) :
  write_traffic D A o !! "departures"
  = Some (VInt (default 0 (map_get D (get_field o "short_name")))).
Proof.
  unfold write_traffic. rewrite lookup_insert_ne by done.
  by rewrite lookup_insert_eq.
Qed.

Lemma write_traffic_total (o : obj) :
  write_traffic D A o !! "totalTraffic"
  = Some (VInt (default 0 (map_get A (get_field o "short_name"))
                + default 0 (map_get D (get_field o "short_name")))).
Proof. unfold write_traffic. by rewrite lookup_insert_eq. Qed.
End Writes.

(** A later call overwrites whatever an earlier call wrote. *)
Lemma write_traffic_absorb (D A D' A' : list (value * Z)) (o : obj) :
  write_traffic D' A' (write_traffic D A o) = write_traffic D' A' o.
Proof.
  apply map_eq. intros k.
  destruct (decide (k = "totalTraffic")) as [->|H1].
  { by rewrite !write_traffic_total, write_traffic_id. }
  destruct (decide (k = "departures")) as [->|H2].
  { by rewrite !write_traffic_departures, write_traffic_id. }
  destruct (decide (k = "arrivals")) as [->|H3].
  { by rewrite !write_traffic_arrivals, write_traffic_id. }
  by rewrite !write_traffic_other.
Qed.

(** The heap after [stations.map]: the objects of the array have been
    written on, each as if once; the array returned has the references of
    the array given. *)
Lemma array_map_station_callback (D A : list (value * Z)) (stations : list loc) :
  ∀ h : heap,
    allocated h stations →
    ∃ h', array_map (station_callback D A) stations h = Some (stations, h')
          ∧ ∀ l, h' !! l = if decide (l ∈ stations)
                           then write_traffic D A <$> h !! l
                           else h !! l.
Proof.
  induction stations as [|x stations IH]; intros h Halloc; cbn [array_map].
  - exists h. split; [done|]. intros l. rewrite decide_False; [done|].
    intros H. inversion H.
  - unfold station_callback at 1.
    destruct (Halloc x) as [o Ho]; [by left|]. rewrite Ho.
    destruct (IH (<[x := write_traffic D A o]> h)) as (h' & Hrun & Hh').
    { intros l Hl. rewrite lookup_insert. case_decide; [done|].
      apply Halloc. by right. }
    rewrite Hrun. exists h'. split; [done|]. intros l. rewrite Hh'.
    destruct (decide (l = x)) as [->|Hne].
    + rewrite lookup_insert_eq, Ho. rewrite (decide_True (P := x ∈ x :: stations)) by by left.
      simpl. case_decide; [by rewrite write_traffic_absorb|done].
    + rewrite lookup_insert_ne by done.
      destruct (decide (l ∈ stations)) as [Hin|Hnin].
      * rewrite decide_True; [done|by right].
      * rewrite decide_False; [done|].
        intros Hin. apply elem_of_cons in Hin as [?|?]; done.
Qed.

Lemma computeStationTraffic_heap (b : buckets) (stations : list loc) (f : Z) (h : heap) :
  allocated h stations →
  ∃ h', computeStationTraffic b stations f h = Some (stations, h')
        ∧ ∀ l, h' !! l =
            if decide (l ∈ stations)
            then write_traffic
                   (d3_rollup (filterByMinute (departuresByMinute b) f)
                              js_length start_station_id)
                   (d3_rollup (filterByMinute (arrivalsByMinute b) f)
                              js_length end_station_id) <$> h !! l
            else h !! l.
Proof. intros Halloc. by apply array_map_station_callback. Qed.

(** ** The aggregation *)

(** C4. The array returned by [computeStationTraffic] is the array of
    stations it was given, so it has one entry per station in the same
    order; on each station, [departures] is the number of trips of the
    departures window whose start station id is the id of the station
    (which is what [departures.get(id) ?? 0] yields, 0 standing in when the
    id is absent from the rollup), [arrivals] likewise with the arrivals
    window and the end station id, and [totalTraffic] is their sum; a
    station that no trip of the two windows refers to gets three zeros. *)
Theorem computeStationTraffic_counts (b : buckets) (stations : list loc) (f : Z)
  (h : heap) :
  allocated h stations →
  ∃ h', computeStationTraffic b stations f h = Some (stations, h')
    ∧ ∀ (i : nat) (l : loc), stations !! i = Some l →
        ∃ o o', h !! l = Some o ∧ h' !! l = Some o'
          ∧ get_field o' "short_name" = get_field o "short_name"
          ∧ let id := get_field o "short_name" in
            let dwindow := filterByMinute (departuresByMinute b) f in
            let awindow := filterByMinute (arrivalsByMinute b) f in
            let deps := d3_rollup dwindow js_length start_station_id in
            let arrs := d3_rollup awindow js_length end_station_id in
            let departures := count_by start_station_id id dwindow in
            let arrivals := count_by end_station_id id awindow in
            default 0 (map_get deps id) = departures
            ∧ (map_get deps id = None ↔ departures = 0)
            ∧ default 0 (map_get arrs id) = arrivals
            ∧ (map_get arrs id = None ↔ arrivals = 0)
            ∧ o' !! "departures" = Some (VInt departures)
            ∧ o' !! "arrivals" = Some (VInt arrivals)
            ∧ o' !! "totalTraffic" = Some (VInt (departures + arrivals))
            ∧ ((∀ t, t ∈ dwindow → start_station_id t ≠ id) →
               (∀ t, t ∈ awindow → end_station_id t ≠ id) →
               o' !! "departures" = Some (VInt 0)
               ∧ o' !! "arrivals" = Some (VInt 0)
               ∧ o' !! "totalTraffic" = Some (VInt 0)).
Proof.
  intros Halloc.
  destruct (computeStationTraffic_heap b stations f h Halloc) as (h' & Hrun & Hh').
  exists h'. split; [done|]. intros i l Hl.
  assert (Hin : l ∈ stations) by (apply list_elem_of_lookup; eauto).
  destruct (Halloc l Hin) as [o Ho]. specialize (Hh' l).
  rewrite decide_True in Hh' by done. rewrite Ho in Hh'. simpl in Hh'.
  eexists o, _. split; [done|]. split; [exact Hh'|].
  split; [apply write_traffic_id|]. cbv zeta.
  destruct (rollup_count (filterByMinute (departuresByMinute b) f)
              start_station_id (get_field o "short_name")) as [Hd Hdn].
  destruct (rollup_count (filterByMinute (arrivalsByMinute b) f)
              end_station_id (get_field o "short_name")) as [Ha Han].
  rewrite write_traffic_departures, write_traffic_arrivals, write_traffic_total.
  rewrite Hd, Ha.
  split; [done|]. split; [done|]. split; [done|]. split; [done|].
  split; [done|]. split; [done|]. split; [do 2 f_equal; lia|].
  intros Hnod Hnoa.
  assert (Hzero : ∀ (key : trip → value) (w : list trip),
            (∀ t, t ∈ w → key t ≠ get_field o "short_name") →
            count_by key (get_field o "short_name") w = 0).
  { intros key w Hw. unfold count_by.
    replace (filter (λ x, key x = get_field o "short_name") w) with (@nil trip); [done|].
    symmetry. induction w as [|t w IH]; [done|].
    rewrite filter_cons. rewrite decide_False by (apply Hw; by left).
    apply IH. intros t' Ht'. apply Hw. by right. }
  rewrite (Hzero _ _ Hnod), (Hzero _ _ Hnoa). done.
Qed.

(** C10. The array returned is the input array of references, element by
    element; no object is created or dropped; every object the array
    refers to has been replaced, at its own reference, by itself with
    [arrivals], [departures] and [totalTraffic] assigned, whatever it held
    there before; the objects the array does not refer to are untouched. *)
Theorem computeStationTraffic_in_place (b : buckets) (stations : list loc) (f : Z)
  (h : heap) :
  allocated h stations →
  ∃ out h', computeStationTraffic b stations f h = Some (out, h')
    ∧ (∀ i : nat, out !! i = stations !! i)
    ∧ dom h' = dom h
    ∧ (∀ l, l ∉ stations → h' !! l = h !! l)
    ∧ ∀ l, l ∈ stations →
        ∃ o, h !! l = Some o
          ∧ h' !! l = Some (write_traffic
               (d3_rollup (filterByMinute (departuresByMinute b) f)
                          js_length start_station_id)
               (d3_rollup (filterByMinute (arrivalsByMinute b) f)
                          js_length end_station_id) o)
          ∧ ∀ o', h' !! l = Some o' →
              let id := get_field o "short_name" in
              let departures :=
                count_by start_station_id id (filterByMinute (departuresByMinute b) f) in
              let arrivals :=
                count_by end_station_id id (filterByMinute (arrivalsByMinute b) f) in
              o' !! "arrivals" = Some (VInt arrivals)
              ∧ o' !! "departures" = Some (VInt departures)
              ∧ o' !! "totalTraffic" = Some (VInt (arrivals + departures)).
Proof.
  intros Halloc.
  destruct (computeStationTraffic_heap b stations f h Halloc) as (h' & Hrun & Hh').
  exists stations, h'. split; [done|]. split; [done|]. split.
  { apply set_eq. intros l. rewrite !elem_of_dom, Hh'.
    case_decide; [|done]. by rewrite fmap_is_Some. }
  split.
  { intros l Hl. rewrite Hh'. by rewrite decide_False. }
  intros l Hl. destruct (Halloc l Hl) as [o Ho]. exists o. split; [done|].
  specialize (Hh' l). rewrite decide_True in Hh' by done.
  rewrite Ho in Hh'. simpl in Hh'. split; [done|].
  intros o' Ho'. rewrite Hh' in Ho'. injection Ho' as <-. cbv zeta.
  rewrite write_traffic_departures, write_traffic_arrivals, write_traffic_total.
  destruct (rollup_count (filterByMinute (departuresByMinute b) f)
              start_station_id (get_field o "short_name")) as [-> _].
  destruct (rollup_count (filterByMinute (arrivalsByMinute b) f)
              end_station_id (get_field o "short_name")) as [-> _].
  done.
Qed.

Lemma computeStationTraffic_allocated (b : buckets) (stations : list loc) (f : Z)
  (h h' : heap) (ls : list loc) :
  allocated h stations → allocated h ls →
  computeStationTraffic b stations f h = Some (stations, h') →
  allocated h' ls.
Proof.
  intros Halloc Hls Hrun l Hl.
  destruct (computeStationTraffic_heap b stations f h Halloc) as (h0 & Hrun0 & Hh0).
  rewrite Hrun in Hrun0. injection Hrun0 as <-.
  rewrite Hh0. case_decide; [|by apply Hls].
  rewrite fmap_is_Some. by apply Hls.
Qed.

(** C3. Calling [computeStationTraffic] with [f1] and then with [f2] on the
    same array of stations leaves the heap that a single call with [f2]
    leaves: nothing that the first call wrote reaches the counts of the
    second. *)
Theorem computeStationTraffic_no_interference (b : buckets) (stations : list loc)
  (f1 f2 : Z) (h : heap) :
  allocated h stations →
  ∃ h1 h2, computeStationTraffic b stations f1 h = Some (stations, h1)
    ∧ computeStationTraffic b stations f2 h1 = Some (stations, h2)
    ∧ computeStationTraffic b stations f2 h = Some (stations, h2).
Proof.
  intros Halloc.
  destruct (computeStationTraffic_heap b stations f1 h Halloc) as (h1 & Hrun1 & Hh1).
  assert (Halloc1 : allocated h1 stations)
    by (by eapply computeStationTraffic_allocated).
  destruct (computeStationTraffic_heap b stations f2 h1 Halloc1) as (h2 & Hrun2 & Hh2).
  destruct (computeStationTraffic_heap b stations f2 h Halloc) as (h2' & Hrun2' & Hh2').
  exists h1, h2. split; [done|]. split; [done|].
  rewrite Hrun2'. do 2 f_equal. apply map_eq. intros l.
  rewrite Hh2, Hh2', Hh1. case_decide; [|done].
  destruct (h !! l) as [o|]; simpl; [|done].
  by rewrite write_traffic_absorb.
Qed.

(** C1, as the code has it. [computeStationTraffic] writes on the station
    objects it is given, and only there and only [arrivals], [departures]
    and [totalTraffic]: every other field of every object is as before,
    an object that the array does not refer to is as before, and no
    reference is added to the heap.  [updateScatterPlot] always hands it
    [originalStations], which it never reassigns. *)
Theorem computeStationTraffic_frame (b : buckets) (stations : list loc) (f : Z)
  (h : heap) (p : page) :
  allocated h stations →
  (∃ h', computeStationTraffic b stations f h = Some (stations, h')
     ∧ (∀ l o, h !! l = Some o →
          ∃ o', h' !! l = Some o'
            ∧ (∀ k, k ≠ "arrivals" → k ≠ "departures" → k ≠ "totalTraffic" →
                 o' !! k = o !! k)
            ∧ (l ∉ stations → o' = o))
     ∧ (∀ l, h !! l = None → h' !! l = None))
  ∧ (∀ out p', updateScatterPlot b f p = Some (out, p') →
       computeStationTraffic b (originalStations p) f (station_heap p)
         = Some (out, station_heap p')
       ∧ originalStations p' = originalStations p).
Proof.
  intros Halloc. split.
  - destruct (computeStationTraffic_heap b stations f h Halloc) as (h' & Hrun & Hh').
    exists h'. split; [done|]. split.
    + intros l o Ho. rewrite Hh', Ho. case_decide; simpl.
      * eexists. split; [done|]. split; [|done].
        intros k H1 H2 H3. by apply write_traffic_other.
      * exists o. done.
    + intros l Hl. rewrite Hh', Hl. by case_decide.
  - intros out p'. unfold updateScatterPlot.
    destruct (computeStationTraffic b (originalStations p) f (station_heap p))
      as [[out' h1]|]; [|done].
    by intros [= <- <-].
Qed.

(** ** Conservation of traffic *)

Lemma filterByMinute_no_filter (b : list (list trip)) :
  filterByMinute b NO_FILTER = concat b.
Proof. reflexivity. Qed.

Lemma count_by_perm {A : Type} (key : A → value) (id : value) (l l' : list A) :
  l ≡ₚ l' → count_by key id l = count_by key id l'.
Proof. intros Hperm. unfold count_by. by rewrite Hperm. Qed.

Lemma count_known_cons {A : Type} (key : A → value) (id : value) (ids : list value)
  (l : list A) :
  id ∉ ids →
  count_known key (id :: ids) l = count_by key id l + count_known key ids l.
Proof.
  intros Hid. unfold count_known, count_by.
  induction l as [|x l IH]; [done|].
  rewrite !filter_cons.
  destruct (decide (key x = id)) as [Hx|Hx].
  - rewrite decide_True by (rewrite Hx; by left).
    rewrite (decide_False (P := key x ∈ ids)) by (by rewrite Hx).
    simpl length. lia.
  - destruct (decide (key x ∈ ids)) as [Hin|Hin].
    + rewrite decide_True by (by right). simpl length. lia.
    + rewrite decide_False; [exact IH|].
      intros H. apply elem_of_cons in H as [?|?]; done.
Qed.

Lemma sum_counts_known {A : Type} (key : A → value) (ids : list value) (l : list A) :
  NoDup ids → sum_counts key ids l = count_known key ids l.
Proof.
  induction 1 as [|id ids Hid Hnd IH]; simpl.
  - unfold count_known. induction l as [|x l IHl]; [done|].
    rewrite filter_cons. rewrite decide_False; [exact IHl|].
    intros H. inversion H.
  - rewrite count_known_cons by done. by rewrite IH.
Qed.

Lemma count_known_all {A : Type} (key : A → value) (ids : list value) (l : list A) :
  (∀ x, x ∈ l → key x ∈ ids) → count_known key ids l = Z.of_nat (length l).
Proof.
  intros Hall. unfold count_known. f_equal.
  induction l as [|x l IH]; [done|].
  rewrite filter_cons. rewrite decide_True by (apply Hall; by left).
  simpl. f_equal. apply IH. intros y Hy. apply Hall. by right.
Qed.

Lemma traffic_sum_counts (h h' : heap) (ca cd : value → Z) (ls : list loc) :
  (∀ l, l ∈ ls → totalTraffic_of h' l = VInt (ca (station_id h l) + cd (station_id h l))) →
  traffic_sum h' ls
  = Some (foldr (fun id acc => cd id + acc) 0 (map (station_id h) ls)
          + foldr (fun id acc => ca id + acc) 0 (map (station_id h) ls)).
Proof.
  induction ls as [|l ls IH]; intros Hls; simpl.
  - done.
  - rewrite (Hls l) by (by left). simpl.
    rewrite IH by (intros l' Hl'; apply Hls; by right).
    f_equal. lia.
Qed.

(** The sum of [totalTraffic] after a call, for stations with distinct ids. *)
Lemma computeStationTraffic_sum (b : buckets) (stations : list loc) (f : Z) (h : heap) :
  allocated h stations →
  NoDup (map (station_id h) stations) →
  ∃ h', computeStationTraffic b stations f h = Some (stations, h')
    ∧ traffic_sum h' stations
      = Some (count_known start_station_id (map (station_id h) stations)
                (filterByMinute (departuresByMinute b) f)
              + count_known end_station_id (map (station_id h) stations)
                  (filterByMinute (arrivalsByMinute b) f)).
Proof.
  intros Halloc Hnd.
  destruct (computeStationTraffic_heap b stations f h Halloc) as (h' & Hrun & Hh').
  exists h'. split; [done|].
  rewrite (traffic_sum_counts h h'
             (fun id => count_by end_station_id id (filterByMinute (arrivalsByMinute b) f))
             (fun id => count_by start_station_id id (filterByMinute (departuresByMinute b) f))).
  - fold (sum_counts start_station_id (map (station_id h) stations)
            (filterByMinute (departuresByMinute b) f)).
    fold (sum_counts end_station_id (map (station_id h) stations)
            (filterByMinute (arrivalsByMinute b) f)).
    by rewrite !sum_counts_known.
  - intros l Hl. unfold totalTraffic_of, station_id.
    rewrite Hh'. rewrite decide_True by done.
    destruct (Halloc l Hl) as [o ->]. simpl.
    unfold get_field at 1. rewrite write_traffic_total. simpl.
    destruct (rollup_count (filterByMinute (departuresByMinute b) f)
                start_station_id (get_field o "short_name")) as [-> _].
    destruct (rollup_count (filterByMinute (arrivalsByMinute b) f)
                end_station_id (get_field o "short_name")) as [-> _].
    done.
Qed.

(** C6, as the code has it. After a normal ingestion and for stations with
    pairwise distinct ids, the unfiltered call leaves a sum of
    [totalTraffic] equal to the number of trips that start at a station of
    the list plus the number of trips that end at one; it is twice the
    number of trips when every trip starts and ends at a station of the
    list. *)
Theorem traffic_conservation (newDate : value → date) (rows : list rawRow)
  (trips : list trip) (b : buckets) (stations : list loc) (h : heap) :
  d3_csv newDate rows initial_buckets = (Normal trips, b) →
  allocated h stations →
  NoDup (map (station_id h) stations) →
  ∃ h', computeStationTraffic b stations NO_FILTER h = Some (stations, h')
    ∧ traffic_sum h' stations
      = Some (count_known start_station_id (map (station_id h) stations) trips
              + count_known end_station_id (map (station_id h) stations) trips)
    ∧ ((∀ t, t ∈ trips →
          start_station_id t ∈ map (station_id h) stations
          ∧ end_station_id t ∈ map (station_id h) stations) →
       traffic_sum h' stations = Some (2 * Z.of_nat (length trips))).
Proof.
  intros Hrun Halloc Hnd.
  apply (d3_csv_Normal newDate rows initial_buckets b [] trips) in Hrun
    as (_ & (_ & Hd & _) & (_ & Ha & _)); [|apply bucketed_empty..].
  simpl in Hd, Ha.
  destruct (computeStationTraffic_sum b stations NO_FILTER h Halloc Hnd)
    as (h' & Hcall & Hsum).
  exists h'. split; [done|].
  rewrite !filterByMinute_no_filter in Hsum.
  assert (Hsum' : traffic_sum h' stations
            = Some (count_known start_station_id (map (station_id h) stations) trips
                    + count_known end_station_id (map (station_id h) stations) trips)).
  { rewrite Hsum. unfold count_known. by rewrite Hd, Ha. }
  split; [done|]. intros Hknown. rewrite Hsum'.
  rewrite !count_known_all; [f_equal; lia|..]; intros t Ht; by apply Hknown.
Qed.

(** ** The visual encodings *)

(** C8. For non-negative [departures] and [totalTraffic], the departure
    ratio is [departures / totalTraffic] when [totalTraffic > 0], and it is
    0.5 when [totalTraffic = 0]: no quotient by zero is taken. *)
Theorem departure_ratio_guarded (departures totalTraffic : Z) :
  0 ≤ departures → 0 ≤ totalTraffic →
  (0 < totalTraffic →
     departure_ratio departures totalTraffic = (IZR departures / IZR totalTraffic)%R)
  ∧ (totalTraffic = 0 → departure_ratio departures totalTraffic = 0.5%R).
Proof.
  intros Hd Ht. unfold departure_ratio. split.
  - intros Hpos. destruct (Z.ltb_spec 0 totalTraffic); [done|lia].
  - by intros ->.
Qed.

Lemma transformSqrt_nonneg (x : R) : (0 <= x)%R → transformSqrt x = sqrt x.
Proof. intros Hx. unfold transformSqrt. destruct (Rlt_dec x 0); [lra|done]. Qed.

(** On a domain [[0, dmax]] with [dmax > 0] the scale is the square-root
    formula. *)
Lemma scale_apply_sqrt (s : sqrt_scale) (dmax x : Z) :
  scale_domain s = (Num 0, Num dmax) → 0 < dmax → 0 ≤ x →
  scale_apply s x
  = Some (IZR (fst (scale_range s))
          + sqrt (IZR x / IZR dmax)
            * (IZR (snd (scale_range s)) - IZR (fst (scale_range s))))%R.
Proof.
  intros Hdom Hmax Hx. unfold scale_apply. rewrite Hdom. f_equal.
  assert (Hmax' : (0 < IZR dmax)%R) by (by apply IZR_lt).
  assert (Hx' : (0 <= IZR x)%R) by (by apply IZR_le).
  rewrite !transformSqrt_nonneg by lra.
  rewrite sqrt_0.
  pose proof (sqrt_lt_R0 (IZR dmax) Hmax') as Hs.
  unfold bimap. destruct (Rlt_dec (sqrt (IZR dmax)) 0) as [Hlt|_]; [lra|].
  unfold normalize. destruct (Req_dec_T (sqrt (IZR dmax) - 0) 0) as [Heq|_]; [lra|].
  unfold interpolateNumber. rewrite sqrt_div by lra.
  rewrite !Rminus_0_r. field. lra.
Qed.

Lemma array_map_station_callback_Some (D A : list (value * Z)) (stations : list loc) :
  ∀ (h h' : heap) (out : list loc),
    array_map (station_callback D A) stations h = Some (out, h') →
    out = stations ∧ allocated h stations.
Proof.
  induction stations as [|x stations IH]; intros h h' out; cbn [array_map].
  - intros [= <- <-]. split; [done|]. intros l Hl. inversion Hl.
  - unfold station_callback at 1. destruct (h !! x) as [o|] eqn:Ho; [|done].
    destruct (array_map _ stations _) as [[ys h2]|] eqn:Hrest; [|done].
    intros [= <- <-]. apply IH in Hrest as [-> Halloc]. split; [done|].
    intros l Hl. apply elem_of_cons in Hl as [->|Hl]; [by rewrite Ho|].
    specialize (Halloc l Hl). rewrite lookup_insert in Halloc.
    case_decide; [subst; by rewrite Ho|done].
Qed.

Lemma d3_max_NaN (values : list value) (n : Z) :
  d3_max values = NaN → VInt n ∉ values.
Proof.
  induction values as [|v values IH]; simpl.
  - intros _ H. inversion H.
  - destruct (as_int v) as [k|] eqn:Hv; destruct (d3_max values); try done.
    intros _ H. apply elem_of_cons in H as [<-|H]; [done|by apply IH].
Qed.

Lemma d3_max_spec (values : list value) (m : Z) :
  d3_max values = Num m →
  VInt m ∈ values ∧ ∀ n, VInt n ∈ values → n ≤ m.
Proof.
  revert m. induction values as [|v values IH]; intros m; simpl; [done|].
  destruct (as_int v) as [n|] eqn:Hv.
  - destruct v; try done. injection Hv as ->.
    destruct (d3_max values) as [|m'] eqn:Hmax.
    + intros [= <-]. split; [by left|]. intros k Hk.
      apply elem_of_cons in Hk as [[= ->]|Hk]; [lia|].
      by apply d3_max_NaN in Hk.
    + intros [= <-]. destruct (IH m' eq_refl) as [Hin Hle]. split.
      * destruct (Z.max_spec n m') as [[_ ->]|[_ ->]]; [by right|by left].
      * intros k Hk. apply elem_of_cons in Hk as [[= ->]|Hk]; [lia|].
        specialize (Hle k Hk). lia.
  - intros Hmax. destruct (IH m Hmax) as [Hin Hle]. split; [by right|].
    intros k Hk. apply elem_of_cons in Hk as [<-|Hk]; [done|by apply Hle].
Qed.

Lemma updateScatterPlot_scale (b : buckets) (f : Z) (p p' : page) (out : list loc) :
  updateScatterPlot b f p = Some (out, p') →
  originalStations p' = originalStations p
  ∧ scale_domain (radiusScale p') = scale_domain (radiusScale p)
  ∧ scale_range (radiusScale p') = if f =? -1 then (0, 25) else (3, 50).
Proof.
  unfold updateScatterPlot.
  destruct (computeStationTraffic _ _ _ _) as [[out' h1]|]; [|done].
  intros [= <- <-]. simpl. by destruct (f =? -1).
Qed.

Lemma slide_scale (b : buckets) (filters : list Z) :
  ∀ p p' : page,
    slide b filters p = Some p' →
    originalStations p' = originalStations p
    ∧ scale_domain (radiusScale p') = scale_domain (radiusScale p).
Proof.
  induction filters as [|f filters IH]; intros p p'; simpl.
  - by intros [= <-].
  - destruct (updateScatterPlot b f p) as [[out p1]|] eqn:Hup; [|done].
    intros Hrest. apply IH in Hrest as [-> ->].
    apply updateScatterPlot_scale in Hup as (-> & -> & _). done.
Qed.


(** * The data set, run *)

Example sample_ingestion :
  d3_csv sample_newDate sample_rows initial_buckets = (Normal sample_trips, sample_buckets).
Proof. vm_compute. reflexivity. Qed.

Example sample_slots :
  slot (departuresByMinute sample_buckets) 5 = [convert_dates sample_newDate row_AB]
  ∧ slot (departuresByMinute sample_buckets) 1438 = [convert_dates sample_newDate row_BA]
  ∧ slot (arrivalsByMinute sample_buckets) 10 = [convert_dates sample_newDate row_AB]
  ∧ slot (arrivalsByMinute sample_buckets) 2 = [convert_dates sample_newDate row_BA].
Proof. vm_compute. done. Qed.

Example sample_traffic_unfiltered :
  fields_after sample_buckets sample_stations NO_FILTER sample_heap "departures"
    = Some [VInt 1; VInt 1]
  ∧ fields_after sample_buckets sample_stations NO_FILTER sample_heap "arrivals"
    = Some [VInt 1; VInt 1]
  ∧ fields_after sample_buckets sample_stations NO_FILTER sample_heap "totalTraffic"
    = Some [VInt 2; VInt 2].
Proof. vm_compute. done. Qed.

Example sample_traffic_midnight :
  fields_after sample_buckets sample_stations 0 sample_heap "totalTraffic"
    = Some [VInt 2; VInt 2].
Proof. vm_compute. reflexivity. Qed.

Lemma sample_allocated : allocated sample_heap sample_stations.
Proof.
  intros l Hl. unfold sample_stations in Hl.
  apply elem_of_cons in Hl as [->|Hl]; [by eexists|].
  apply elem_of_cons in Hl as [->|Hl]; [by eexists|].
  inversion Hl.
Qed.

Lemma sample_ids : map (station_id sample_heap) sample_stations = [VStr "A"; VStr "B"].
Proof. reflexivity. Qed.

(** ** Where the code departs from the specification *)

(** Against C1: the stations of the data set have no [arrivals] field
    before a call and have one after it, so a call does not leave every
    station object as it was. *)
Lemma computeStationTraffic_writes_on_stations :
  ¬ (∀ (b : buckets) (stations : list loc) (f : Z) (h h' : heap),
       computeStationTraffic b stations f h = Some (stations, h') →
       ∀ l, l ∈ stations → h' !! l = h !! l).
Proof.
  intros Hclaim.
  destruct (computeStationTraffic_heap initial_buckets sample_stations NO_FILTER
              sample_heap sample_allocated) as (h' & Hrun & Hh').
  specialize (Hclaim _ _ _ _ _ Hrun 0%nat ltac:(by left)).
  rewrite Hh' in Hclaim. rewrite decide_True in Hclaim by (by left).
  assert (Hl : sample_heap !! 0%nat = Some station_A) by reflexivity.
  rewrite Hl in Hclaim. apply (inj Some) in Hclaim.
  apply (f_equal (fun o : obj => o !! "arrivals")) in Hclaim.
  rewrite write_traffic_arrivals in Hclaim.
  assert (Hnone : station_A !! "arrivals" = None) by reflexivity.
  rewrite Hnone in Hclaim. discriminate Hclaim.
Qed.

(** Against C6: one trip from station A to a station that is not in the
    list is ingested, and the unfiltered sum of [totalTraffic] over the
    stations A and B is 1, not 2. *)
Lemma unknown_station_breaks_conservation :
  d3_csv sample_newDate [row_AZ] initial_buckets
    = (Normal [convert_dates sample_newDate row_AZ],
       snd (d3_csv sample_newDate [row_AZ] initial_buckets))
  ∧ total_after (snd (d3_csv sample_newDate [row_AZ] initial_buckets))
      sample_stations NO_FILTER sample_heap = Some 1
  ∧ ¬ (∀ (newDate : value → date) (rows : list rawRow) (trips : list trip)
         (b : buckets) (stations : list loc) (h : heap),
         d3_csv newDate rows initial_buckets = (Normal trips, b) →
         allocated h stations →
         total_after b stations NO_FILTER h = Some (2 * Z.of_nat (length trips))).
Proof.
  assert (Hrun : d3_csv sample_newDate [row_AZ] initial_buckets
            = (Normal [convert_dates sample_newDate row_AZ],
               snd (d3_csv sample_newDate [row_AZ] initial_buckets)))
    by (vm_compute; reflexivity).
  assert (Hsum : total_after (snd (d3_csv sample_newDate [row_AZ] initial_buckets))
            sample_stations NO_FILTER sample_heap = Some 1)
    by (vm_compute; reflexivity).
  split; [done|]. split; [done|]. intros Hclaim.
  specialize (Hclaim _ _ _ _ _ _ Hrun sample_allocated).
  rewrite Hsum in Hclaim. discriminate Hclaim.
Qed.

(** Against C7: a row with an empty end timestamp, followed by a good row.
    The ingestion throws; the good row is in neither array; the bad row is
    in the departures array and not in the arrivals array. *)
Lemma malformed_row_is_not_skipped :
  d3_csv sample_newDate [row_bad; row_AB] initial_buckets
    = (TypeError,
       {| departuresByMinute :=
            <[5%nat := [convert_dates sample_newDate row_bad]]> empty_buckets;
          arrivalsByMinute := empty_buckets |})
  ∧ ¬ (∀ (newDate : value → date) (rows : list rawRow),
         ∃ (trips : list trip) (b : buckets),
           d3_csv newDate rows initial_buckets = (Normal trips, b)
           ∧ concat (departuresByMinute b)
               ≡ₚ map (convert_dates newDate) (filter (fun r => row_parses newDate r = true) rows)
           ∧ concat (arrivalsByMinute b)
               ≡ₚ map (convert_dates newDate) (filter (fun r => row_parses newDate r = true) rows)).
Proof.
  assert (Hrun : d3_csv sample_newDate [row_bad; row_AB] initial_buckets
            = (TypeError,
               {| departuresByMinute :=
                    <[5%nat := [convert_dates sample_newDate row_bad]]> empty_buckets;
                  arrivalsByMinute := empty_buckets |}))
    by (vm_compute; reflexivity).
  split; [done|]. intros Hclaim.
  destruct (Hclaim sample_newDate [row_bad; row_AB]) as (trips & b & Hnormal & _).
  rewrite Hrun in Hnormal. discriminate Hnormal.
Qed.

(** ** The theorems at the data set *)

Lemma filterByMinute_cyclic_window_sample :
  length (departuresByMinute sample_buckets) = MINUTES
  ∧ 0 ≤ 30 ≤ 1439
  ∧ filterByMinute (departuresByMinute sample_buckets) 30
    = cyclic_window (departuresByMinute sample_buckets) (window_lo 30) 120.
Proof.
  split; [vm_compute; reflexivity|]. split; [lia|].
  apply (filterByMinute_cyclic_window (departuresByMinute sample_buckets) 30);
    [vm_compute; reflexivity|lia].
Defined.

Lemma ingested_trips_bucketed_sample :
  d3_csv sample_newDate sample_rows initial_buckets = (Normal sample_trips, sample_buckets)
  ∧ (∃ ms, started_at (convert_dates sample_newDate row_BA) = DateAt ms
           ∧ convert_dates sample_newDate row_BA
             ∈ slot (departuresByMinute sample_buckets)
                 (Z.to_nat ((ms / 3600000) mod 24 * 60 + (ms / 60000) mod 60)))
  ∧ slot_total (departuresByMinute sample_buckets) = length sample_trips
  ∧ slot_total (arrivalsByMinute sample_buckets) = length sample_trips.
Proof.
  split; [vm_compute; reflexivity|].
  destruct (ingested_trips_bucketed sample_newDate sample_rows sample_trips sample_buckets)
    as (_ & _ & _ & _ & _ & _ & _ & Hin & _ & _ & _ & Hd & Ha);
    [vm_compute; reflexivity|].
  split; [|split; [exact Hd|exact Ha]].
  apply Hin. right. left.
Defined.

Lemma malformed_row_ends_ingestion_sample :
  Forall (fun row => row_parses sample_newDate row = true) [row_AB]
  ∧ row_parses sample_newDate row_bad = false
  ∧ ∃ b, d3_csv sample_newDate ([row_AB] ++ row_bad :: [row_BA]) initial_buckets
         = (TypeError, b)
       ∧ bucketed end_minute (arrivalsByMinute b) (map (convert_dates sample_newDate) [row_AB]).
Proof.
  split; [repeat constructor|]. split; [reflexivity|].
  destruct (malformed_row_ends_ingestion sample_newDate [row_AB] row_bad)
    as (_ & b & Hrun & Harr & _); [repeat constructor|reflexivity|].
  exists b. split; [exact (Hrun [row_BA])|exact Harr].
Defined.

Lemma computeStationTraffic_counts_sample :
  allocated sample_heap sample_stations
  ∧ ∃ h', computeStationTraffic sample_buckets sample_stations 30 sample_heap
          = Some (sample_stations, h').
Proof.
  split; [exact sample_allocated|].
  destruct (computeStationTraffic_counts sample_buckets sample_stations 30 sample_heap
              sample_allocated) as (h' & Hrun & _).
  exists h'. exact Hrun.
Defined.

Lemma computeStationTraffic_in_place_sample :
  allocated sample_heap sample_stations
  ∧ ∃ out h', computeStationTraffic sample_buckets sample_stations 30 sample_heap
              = Some (out, h')
            ∧ (∀ i : nat, out !! i = sample_stations !! i)
            ∧ dom h' = dom sample_heap.
Proof.
  split; [exact sample_allocated|].
  destruct (computeStationTraffic_in_place sample_buckets sample_stations 30 sample_heap
              sample_allocated) as (out & h' & Hrun & Hout & Hdom & _).
  exists out, h'. split; [exact Hrun|]. split; [exact Hout|exact Hdom].
Defined.

Lemma computeStationTraffic_no_interference_sample :
  allocated sample_heap sample_stations
  ∧ ∃ h1 h2,
      computeStationTraffic sample_buckets sample_stations 30 sample_heap
        = Some (sample_stations, h1)
      ∧ computeStationTraffic sample_buckets sample_stations 720 h1
        = Some (sample_stations, h2)
      ∧ computeStationTraffic sample_buckets sample_stations 720 sample_heap
        = Some (sample_stations, h2).
Proof.
  split; [exact sample_allocated|].
  exact (computeStationTraffic_no_interference sample_buckets sample_stations 30 720
           sample_heap sample_allocated).
Defined.

Lemma traffic_conservation_sample :
  d3_csv sample_newDate sample_rows initial_buckets = (Normal sample_trips, sample_buckets)
  ∧ allocated sample_heap sample_stations
  ∧ NoDup (map (station_id sample_heap) sample_stations)
  ∧ ∃ h', computeStationTraffic sample_buckets sample_stations NO_FILTER sample_heap
          = Some (sample_stations, h')
        ∧ traffic_sum h' sample_stations
          = Some (count_known start_station_id
                    (map (station_id sample_heap) sample_stations) sample_trips
                  + count_known end_station_id
                      (map (station_id sample_heap) sample_stations) sample_trips).
Proof.
  assert (Hnd : NoDup (map (station_id sample_heap) sample_stations)).
  { rewrite sample_ids. apply NoDup_cons. split.
    - intros H. apply list_elem_of_singleton in H. discriminate H.
    - apply NoDup_singleton. }
  split; [vm_compute; reflexivity|]. split; [exact sample_allocated|].
  split; [exact Hnd|].
  destruct (traffic_conservation sample_newDate sample_rows sample_trips sample_buckets
              sample_stations sample_heap) as (h' & Hrun & Hsum & _);
    [vm_compute; reflexivity|exact sample_allocated|exact Hnd|].
  exists h'. split; [exact Hrun|exact Hsum].
Defined.

Lemma departure_ratio_guarded_sample :
  0 ≤ 1 ∧ 0 ≤ 2
  ∧ (0 < 2 → departure_ratio 1 2 = (IZR 1 / IZR 2)%R)
  ∧ (2 = 0 → departure_ratio 1 2 = 0.5%R).
Proof.
  split; [lia|]. split; [lia|].
  apply (departure_ratio_guarded 1 2); lia.
Defined.

Lemma computeStationTraffic_frame_sample :
  allocated sample_heap sample_stations
  ∧ ∃ h', computeStationTraffic sample_buckets sample_stations 30 sample_heap
          = Some (sample_stations, h')
        ∧ (∀ l o, sample_heap !! l = Some o →
             ∃ o', h' !! l = Some o'
               ∧ (∀ k, k ≠ "arrivals" → k ≠ "departures" → k ≠ "totalTraffic" →
                    o' !! k = o !! k)
               ∧ (l ∉ sample_stations → o' = o)).
Proof.
  split; [exact sample_allocated|].
  destruct (computeStationTraffic_frame sample_buckets sample_stations 30 sample_heap
              {| originalStations := sample_stations;
                 station_heap := sample_heap;
                 radiusScale := {| scale_domain := (Num 0, Num 2);
                                   scale_range := (0, 25) |} |}
              sample_allocated) as ((h' & Hrun & Hframe & _) & _).
  exists h'. split; [exact Hrun|exact Hframe].
Defined.


(** On the domain [[0, 2]] of the data set and the unfiltered range, the
    busiest station gets the largest radius. *)
Example sample_radius :
  scale_apply {| scale_domain := (Num 0, Num 2); scale_range := (0, 25) |} 2
  = Some 25%R.
Proof.
  rewrite (scale_apply_sqrt _ 2 2) by done. simpl. f_equal.
  replace (2 / 2)%R with 1%R by lra. rewrite sqrt_1. lra.
Qed.

(** * More properties of the code *)

(** ** Minutes since midnight *)

Lemma minutes_of_valid_date (t : Z) :
  minutesSinceMidnight (DateAt t) = Num ((t / msPerMinute) mod 1440).
Proof.
  unfold minutesSinceMidnight, getHours, getMinutes, num_mul, num_add.
  unfold msPerHour, msPerMinute. f_equal.
  replace (t / 3600000) with (t / 60000 / 60)
    by (rewrite Z.div_div by lia; reflexivity).
  change 1440 with (60 * 24).
  rewrite (Z.rem_mul_r (t / 60000) 60 24) by lia. lia.
Qed.

(** X1. On a valid date [minutesSinceMidnight] is the number of whole local
    minutes since the date's midnight, [floor (t / 60000) mod 1440]: an
    integer of [0, 1439], so that it always names a slot of a bucket array;
    on an invalid date it is NaN. *)
Theorem minutesSinceMidnight_closed_form :
  (∀ t : Z,
     minutesSinceMidnight (DateAt t) = Num ((t / msPerMinute) mod 1440)
     ∧ 0 ≤ (t / msPerMinute) mod 1440 < 1440)
  ∧ minutesSinceMidnight InvalidDate = NaN.
Proof.
  split; [|reflexivity]. intros t. split.
  - apply minutes_of_valid_date.
  - apply Z.mod_pos_bound. lia.
Qed.

(** X2. Seconds, milliseconds and whole days do not count: two valid dates
    whose local times fall in the same minute of the day, on whatever days,
    have the same [minutesSinceMidnight]. *)
Theorem minutesSinceMidnight_same_minute (t days seconds_ms : Z) :
  t mod msPerMinute = 0 → 0 ≤ seconds_ms < msPerMinute →
  minutesSinceMidnight (DateAt (t + seconds_ms + days * 86400000))
  = minutesSinceMidnight (DateAt t).
Proof.
  intros Hmin Hs. rewrite !minutes_of_valid_date. f_equal.
  unfold msPerMinute in *.
  apply Z.mod_divide in Hmin as [q ->]; [|lia].
  replace (q * 60000 + seconds_ms + days * 86400000)
    with (seconds_ms + (q + days * 1440) * 60000) by lia.
  rewrite Z.div_add by lia. rewrite Z.div_mul by lia.
  rewrite (Z.div_small seconds_ms) by lia.
  replace (0 + (q + days * 1440)) with (q + days * 1440) by lia.
  by rewrite Z_mod_plus_full.
Qed.

(** ** The window query, further *)

Lemma slice_sublist {A : Type} (arr : list A) (start : Z) (end_ : option Z) :
  slice arr start end_ `sublist_of` arr.
Proof.
  unfold slice. etransitivity; [apply sublist_take|apply sublist_drop].
Qed.

Lemma concat_sublist {A : Type} (l1 l2 : list (list A)) :
  l1 `sublist_of` l2 → concat l1 `sublist_of` concat l2.
Proof.
  induction 1 as [|x l1 l2 _ IH|x l1 l2 _ IH]; simpl.
  - constructor.
  - by apply sublist_app.
  - by apply sublist_inserts_l.
Qed.

Lemma slots_split (b : list (list trip)) (lo mid hi : nat) :
  (lo ≤ mid)%nat → (mid ≤ hi)%nat →
  slots b lo hi = slots b lo mid ++ slots b mid hi.
Proof.
  intros H1 H2. unfold slots.
  replace (hi - lo)%nat with ((mid - lo) + (hi - mid))%nat by lia.
  rewrite seq_app, map_app, concat_app.
  by replace (lo + (mid - lo))%nat with mid by lia.
Qed.

Lemma slots_all (b : list (list trip)) : slots b 0 (length b) = concat b.
Proof.
  rewrite slots_take_drop by lia. rewrite drop_0, Nat.sub_0_r.
  by rewrite take_ge.
Qed.

Lemma filterByMinute_elem_of (b : list (list trip)) (f : Z) :
  length b = MINUTES → 0 ≤ f ≤ 1439 →
  ∀ t, t ∈ filterByMinute b f ↔
       ∃ m : nat, (m < MINUTES)%nat ∧ t ∈ slot b m
                  ∧ (Z.of_nat m - f + 60) mod 1440 < 120.
Proof.
  intros Hlen Hf t. rewrite filterByMinute_slots by done.
  unfold window_lo, window_hi, MINUTES.
  destruct (window_cases f Hf) as (Hlo & Hhi & Hcases). cbv zeta in *.
  rewrite <- Hlo, <- Hhi.
  destruct Hcases as [(Hr & -> & ->)|[(Hr & -> & ->)|(Hr & -> & ->)]].
  - rewrite decide_True by lia. rewrite elem_of_slots. split.
    + intros (m & Hm & Ht). exists m. split; [lia|]. split; [done|].
      rewrite Z.mod_small; lia.
    + intros (m & Hm & Ht & Hd). exists m. split; [|done].
      pose proof (Z.div_mod (Z.of_nat m - f + 60) 1440 ltac:(lia)) as Hdm.
      pose proof (Z.mod_pos_bound (Z.of_nat m - f + 60) 1440 ltac:(lia)) as Hb.
      lia.
  - rewrite decide_False by lia. rewrite elem_of_app, !elem_of_slots. split.
    + intros [(m & Hm & Ht)|(m & Hm & Ht)]; exists m; (split; [lia|]);
        (split; [done|]).
      * replace (Z.of_nat m - f + 60) with (Z.of_nat m - f - 1380 + 1 * 1440) by lia.
        rewrite Z_mod_plus_full. rewrite Z.mod_small; lia.
      * rewrite Z.mod_small; lia.
    + intros (m & Hm & Ht & Hd).
      pose proof (Z.div_mod (Z.of_nat m - f + 60) 1440 ltac:(lia)) as Hdm.
      pose proof (Z.mod_pos_bound (Z.of_nat m - f + 60) 1440 ltac:(lia)) as Hb.
      destruct (decide (Z.to_nat (f + 1380) ≤ m)%nat);
        [left|right]; exists m; (split; [lia|done]).
  - rewrite decide_False by lia. rewrite elem_of_app, !elem_of_slots. split.
    + intros [(m & Hm & Ht)|(m & Hm & Ht)]; exists m; (split; [lia|]);
        (split; [done|]).
      * rewrite Z.mod_small; lia.
      * replace (Z.of_nat m - f + 60) with (Z.of_nat m - f + 1500 + (-1) * 1440) by lia.
        rewrite Z_mod_plus_full. rewrite Z.mod_small; lia.
    + intros (m & Hm & Ht & Hd).
      pose proof (Z.div_mod (Z.of_nat m - f + 60) 1440 ltac:(lia)) as Hdm.
      pose proof (Z.mod_pos_bound (Z.of_nat m - f + 60) 1440 ltac:(lia)) as Hb.
      destruct (decide (Z.to_nat (f - 60) ≤ m)%nat);
        [left|right]; exists m; (split; [lia|done]).
Qed.

(** X3. For a filter [f] of [0, 1439] a trip is returned exactly when it
    sits in a slot [m] at cyclic distance less than 120 after [f - 60],
    that is [(m - f + 60) mod 1440 < 120]; in particular the trips of the
    slot [f] itself are always returned. *)
Theorem filterByMinute_cyclic_distance (b : list (list trip)) (f : Z) :
  length b = MINUTES → 0 ≤ f ≤ 1439 →
  (∀ t, t ∈ filterByMinute b f ↔
        ∃ m : nat, (m < MINUTES)%nat ∧ t ∈ slot b m
                   ∧ (Z.of_nat m - f + 60) mod 1440 < 120)
  ∧ (∀ t, t ∈ slot b (Z.to_nat f) → t ∈ filterByMinute b f).
Proof.
  intros Hlen Hf.
  pose proof (filterByMinute_elem_of b f Hlen Hf) as Hchar.
  split; [exact Hchar|]. intros t Ht. apply Hchar.
  exists (Z.to_nat f). unfold MINUTES. split; [lia|]. split; [done|].
  rewrite Z2Nat.id by lia.
  replace (f - f + 60) with 60 by lia. reflexivity.
Qed.

(** X4. Whatever the filter, an integer in range or not, and whatever the
    size of the array, [filterByMinute] returns only trips that are in a
    slot of the array it was given. *)
Theorem filterByMinute_only_bucketed (b : list (list trip)) (f : Z) (t : trip) :
  t ∈ filterByMinute b f → t ∈ concat b.
Proof.
  unfold filterByMinute, flat.
  destruct (f =? -1); [done|].
  destruct (_ >? _).
  - rewrite concat_app, elem_of_app.
    intros [H|H]; (eapply elem_of_sublist; [exact H|]);
      apply concat_sublist, slice_sublist.
  - intros H. eapply elem_of_sublist; [exact H|].
    apply concat_sublist, slice_sublist.
Qed.

Lemma filterByMinute_submseteq (b : list (list trip)) (f : Z) :
  length b = MINUTES → -1 ≤ f ≤ 1439 →
  filterByMinute b f ⊆+ concat b.
Proof.
  intros Hlen Hf. destruct (decide (f = -1)) as [->|Hne]; [done|].
  rewrite filterByMinute_slots by (done || lia).
  rewrite <- slots_all, Hlen.
  assert (window_lo f < MINUTES ∧ window_hi f < MINUTES)%nat as [Hlo Hhi].
  { unfold window_lo, window_hi, MINUTES.
    pose proof (Z.mod_pos_bound (f - 60 + 1440) 1440 ltac:(lia)).
    pose proof (Z.mod_pos_bound (f + 60) 1440 ltac:(lia)). lia. }
  case_decide as Hle.
  - rewrite (slots_split b 0 (window_lo f) MINUTES) by lia.
    rewrite (slots_split b (window_lo f) (window_hi f) MINUTES) by lia.
    apply submseteq_inserts_l, submseteq_inserts_r. done.
  - rewrite (slots_split b 0 (window_hi f) MINUTES) by lia.
    rewrite (slots_split b (window_hi f) (window_lo f) MINUTES) by lia.
    rewrite (comm (++) (slots b (window_lo f) MINUTES)).
    apply submseteq_skips_l, submseteq_inserts_l. done.
Qed.

Lemma count_by_submseteq {A : Type} (key : A → value) (id : value) (l1 l2 : list A) :
  l1 ⊆+ l2 → count_by key id l1 ≤ count_by key id l2.
Proof.
  intros [k Hk]%submseteq_Permutation. unfold count_by.
  rewrite Hk, filter_app, length_app. lia.
Qed.

(** X5. For a filter of [-1, 1439] the result of [filterByMinute] takes
    each trip of the array at most as often as the array holds it: it has
    at most as many trips as the array, and the unfiltered call returns
    all of them. *)
Theorem filterByMinute_within_buckets (b : list (list trip)) (f : Z) :
  length b = MINUTES → -1 ≤ f ≤ 1439 →
  filterByMinute b f ⊆+ concat b
  ∧ (length (filterByMinute b f) ≤ slot_total b)%nat
  ∧ filterByMinute b NO_FILTER = concat b.
Proof.
  intros Hlen Hf.
  pose proof (filterByMinute_submseteq b f Hlen Hf) as Hsub.
  split; [done|]. split; [|done].
  unfold slot_total. rewrite <- length_concat. by apply submseteq_length.
Qed.

(** ** Ingestion, further *)

Lemma slot_push_eq (arr : list (list trip)) (m k : nat) (x : trip) :
  (m < length arr)%nat →
  slot (<[m := slot arr m ++ [x]]> arr) k
  = if decide (k = m) then slot arr m ++ [x] else slot arr k.
Proof.
  intros Hm. unfold slot at 1. rewrite list_lookup_insert.
  destruct (decide (k = m)) as [->|Hne].
  - rewrite decide_True by done. done.
  - rewrite decide_False; [done|]. intros [? _]. by apply Hne.
Qed.

Section IngestionOrder.
Context (newDate : value → date).

Lemma row_callback_length (row : rawRow) (b b' : buckets) (r : completion trip) :
  row_callback newDate row b = (r, b') →
  length (departuresByMinute b') = length (departuresByMinute b)
  ∧ length (arrivalsByMinute b') = length (arrivalsByMinute b).
Proof.
  unfold row_callback.
  destruct (push_at (departuresByMinute b) _ _) as [deps|] eqn:Hd.
  - apply push_at_Some in Hd as (ms & _ & _ & ->). simpl.
    destruct (push_at (arrivalsByMinute b) _ _) as [arrs|] eqn:Ha.
    + apply push_at_Some in Ha as (me & _ & _ & ->).
      intros [= _ <-]. simpl. by rewrite !length_insert.
    + intros [= _ <-]. simpl. by rewrite length_insert.
  - by intros [= _ <-].
Qed.

Lemma d3_csv_length (rows : list rawRow) :
  ∀ (b b' : buckets) (r : completion (list trip)),
    d3_csv newDate rows b = (r, b') →
    length (departuresByMinute b') = length (departuresByMinute b)
    ∧ length (arrivalsByMinute b') = length (arrivalsByMinute b).
Proof.
  induction rows as [|row rest IH]; intros b b' r; simpl.
  - by intros [= _ <-].
  - destruct (row_callback newDate row b) as [[t|] b1] eqn:Hrow.
    + apply row_callback_length in Hrow as [Hd Ha].
      destruct (d3_csv newDate rest b1) as [[ts|] b2] eqn:Hrest;
        apply IH in Hrest as [Hd2 Ha2]; intros [= _ <-]; split; congruence.
    + apply row_callback_length in Hrow as [Hd Ha]. by intros [= _ <-].
Qed.

(** The slots list their trips in the order of the rows. *)
Lemma d3_csv_order (rows : list rawRow) :
  ∀ (b b' : buckets) (ts0 ts : list trip),
    (∀ m, slot (departuresByMinute b) m
          = filter (fun t => start_minute t = Num (Z.of_nat m)) ts0) →
    (∀ m, slot (arrivalsByMinute b) m
          = filter (fun t => end_minute t = Num (Z.of_nat m)) ts0) →
    d3_csv newDate rows b = (Normal ts, b') →
    (∀ m, slot (departuresByMinute b') m
          = filter (fun t => start_minute t = Num (Z.of_nat m)) (ts0 ++ ts))
    ∧ (∀ m, slot (arrivalsByMinute b') m
            = filter (fun t => end_minute t = Num (Z.of_nat m)) (ts0 ++ ts)).
Proof.
  induction rows as [|row rest IH]; intros b b' ts0 ts Hd Ha; simpl.
  - intros [= <- <-]. by rewrite app_nil_r.
  - destruct (row_callback newDate row b) as [[t|] b1] eqn:Hrow; [|done].
    destruct (d3_csv newDate rest b1) as [[ts'|] b2] eqn:Hrest; [|done].
    intros [= <- <-].
    apply row_callback_Normal in Hrow
      as (-> & ms & me & Hms & Hlt & Hme & Hlt' & Hd1 & Ha1).
    apply IH with (ts0 := ts0 ++ [convert_dates newDate row]) in Hrest.
    + by rewrite <- !app_assoc in Hrest.
    + intros m. rewrite Hd1, slot_push_eq by done. rewrite filter_app, filter_cons, Hms.
      destruct (decide (m = ms)) as [->|Hne].
      * rewrite decide_True by done. by rewrite Hd.
      * rewrite decide_False by (intros [= H]; lia).
        rewrite filter_nil, app_nil_r. apply Hd.
    + intros m. rewrite Ha1, slot_push_eq by done. rewrite filter_app, filter_cons, Hme.
      destruct (decide (m = me)) as [->|Hne].
      * rewrite decide_True by done. by rewrite Ha.
      * rewrite decide_False by (intros [= H]; lia).
        rewrite filter_nil, app_nil_r. apply Ha.
Qed.

Lemma d3_csv_Normal_parses (rows : list rawRow) :
  ∀ (b b' : buckets) (ts : list trip),
    d3_csv newDate rows b = (Normal ts, b') →
    Forall (fun row => row_parses newDate row = true) rows.
Proof.
  induction rows as [|row rest IH]; intros b b' ts; simpl; [by constructor|].
  destruct (row_callback newDate row b) as [[t|] b1] eqn:Hrow; [|done].
  destruct (d3_csv newDate rest b1) as [[ts'|] b2] eqn:Hrest; [|done].
  intros _. constructor; [|by eapply IH].
  apply row_callback_Normal in Hrow as (-> & ms & me & Hms & _ & Hme & _).
  unfold start_minute, end_minute, row_parses in *. simpl in Hms, Hme.
  destruct (newDate (raw_started_at row)); [done|].
  destruct (newDate (raw_ended_at row)); done.
Qed.

Lemma d3_csv_app (rows1 rows2 : list rawRow) :
  ∀ (b b1 : buckets) (ts1 : list trip),
    d3_csv newDate rows1 b = (Normal ts1, b1) →
    d3_csv newDate (rows1 ++ rows2) b
    = match d3_csv newDate rows2 b1 with
      | (Normal ts2, b2) => (Normal (ts1 ++ ts2), b2)
      | (TypeError, b2) => (TypeError, b2)
      end.
Proof.
  induction rows1 as [|row rest IH]; intros b b1 ts1; simpl.
  - intros [= <- <-]. by destruct (d3_csv newDate rows2 b) as [[?|] ?].
  - destruct (row_callback newDate row b) as [[t|] b0]; [|done].
    destruct (d3_csv newDate rest b0) as [[ts|] b3] eqn:Hrest; [|done].
    intros [= <- <-]. rewrite (IH _ _ _ Hrest).
    by destruct (d3_csv newDate rows2 b3) as [[?|] ?].
Qed.
End IngestionOrder.

Lemma slot_empty_buckets (m : nat) : slot empty_buckets m = [].
Proof.
  unfold slot, empty_buckets.
  destruct (replicate MINUTES [] !! m) as [s|] eqn:Hs; [|done].
  by apply lookup_replicate in Hs as [-> _].
Qed.

(** X6. After an ingestion that returned normally, slot [m] of the
    departures array lists, in the order of the rows, exactly the trips
    whose start minute is [m], and slot [m] of the arrivals array those
    whose end minute is [m]. *)
Theorem d3_csv_slots_in_row_order (newDate : value → date) (rows : list rawRow)
  (trips : list trip) (b : buckets) :
  d3_csv newDate rows initial_buckets = (Normal trips, b) →
  ∀ m : nat,
    slot (departuresByMinute b) m
    = filter (fun t => start_minute t = Num (Z.of_nat m)) trips
    ∧ slot (arrivalsByMinute b) m
      = filter (fun t => end_minute t = Num (Z.of_nat m)) trips.
Proof.
  intros Hrun m.
  apply (d3_csv_order newDate rows initial_buckets b [] trips) in Hrun as [Hd Ha].
  - done.
  - intros k. apply slot_empty_buckets.
  - intros k. apply slot_empty_buckets.
Qed.

Lemma some_row_fails (newDate : value → date) (rows : list rawRow) :
  ¬ Forall (fun row => row_parses newDate row = true) rows
  ↔ Exists (fun row => row_parses newDate row = false) rows.
Proof.
  induction rows as [|row rows IH].
  - split; [intros H; exfalso; apply H; constructor|intros H; inversion H].
  - rewrite Forall_cons, Exists_cons, <- IH.
    destruct (row_parses newDate row); split.
    + intros H. right. intros Hall. by apply H.
    + intros [?|H] [_ Hall]; [done|by apply H].
    + by left.
    + intros _ [? _]. done.
Qed.

(** X7. Ingestion from the empty buckets returns normally exactly when both
    timestamps of every row parse; otherwise it throws. *)
Theorem d3_csv_Normal_iff_rows_parse (newDate : value → date) (rows : list rawRow) :
  ((∃ trips b, d3_csv newDate rows initial_buckets = (Normal trips, b))
   ↔ Forall (fun row => row_parses newDate row = true) rows)
  ∧ ((∃ b, d3_csv newDate rows initial_buckets = (TypeError, b))
     ↔ Exists (fun row => row_parses newDate row = false) rows).
Proof.
  assert (Hiff : (∃ trips b, d3_csv newDate rows initial_buckets = (Normal trips, b))
                 ↔ Forall (fun row => row_parses newDate row = true) rows).
  { split.
    - intros (trips & b & Hrun). by eapply d3_csv_Normal_parses.
    - intros Hrows.
      destruct (d3_csv_parses newDate rows initial_buckets) as (b & Hrun & _);
        [apply length_replicate..|done|eauto]. }
  split; [exact Hiff|].
  rewrite <- (some_row_fails newDate rows), <- Hiff.
  destruct (d3_csv newDate rows initial_buckets) as [[ts|] b]; split.
  - by intros (b' & ?).
  - intros Hno. exfalso. apply Hno. eauto.
  - intros _ (ts & b' & ?). done.
  - eauto.
Qed.

(** X8. Pushing never changes the number of slots: whatever the rows, and
    whether the ingestion returns or throws, both bucket arrays still have
    1440 slots afterwards. *)
Theorem d3_csv_keeps_1440_slots (newDate : value → date) (rows : list rawRow) :
  length (departuresByMinute (snd (d3_csv newDate rows initial_buckets))) = MINUTES
  ∧ length (arrivalsByMinute (snd (d3_csv newDate rows initial_buckets))) = MINUTES.
Proof.
  destruct (d3_csv newDate rows initial_buckets) as [r b] eqn:Hrun.
  apply d3_csv_length in Hrun as [Hd Ha]. simpl.
  rewrite Hd, Ha. split; apply length_replicate.
Qed.


(** X10. The buckets are never reset: an ingestion that starts from the
    buckets that an earlier normal ingestion left behaves as one ingestion
    of the two batches in a row, and the buckets then hold the trips of
    both. *)
Theorem d3_csv_accumulates (newDate : value → date) (rows1 rows2 : list rawRow)
  (trips1 trips2 : list trip) (b1 b2 : buckets) :
  d3_csv newDate rows1 initial_buckets = (Normal trips1, b1) →
  d3_csv newDate rows2 b1 = (Normal trips2, b2) →
  d3_csv newDate (rows1 ++ rows2) initial_buckets = (Normal (trips1 ++ trips2), b2)
  ∧ bucketed start_minute (departuresByMinute b2) (trips1 ++ trips2)
  ∧ bucketed end_minute (arrivalsByMinute b2) (trips1 ++ trips2).
Proof.
  intros Hrun1 Hrun2.
  assert (Hboth : d3_csv newDate (rows1 ++ rows2) initial_buckets
                  = (Normal (trips1 ++ trips2), b2)).
  { rewrite (d3_csv_app newDate rows1 rows2 _ _ _ Hrun1). by rewrite Hrun2. }
  split; [done|].
  apply (d3_csv_Normal newDate _ initial_buckets b2 [] _
           (bucketed_empty _) (bucketed_empty _)) in Hboth as (_ & Hd & Ha).
  done.
Qed.

(** X11. Ingestion and query together. After an ingestion that returned
    normally, the unfiltered query on the departures array returns the
    ingested trips, each once, and for a filter [f] of [0, 1439] it returns
    exactly the ingested trips whose start minute [m] satisfies
    [(m - f + 60) mod 1440 < 120]; likewise on the arrivals array with the
    end minute. *)
Theorem ingested_window (newDate : value → date) (rows : list rawRow)
  (trips : list trip) (b : buckets) (f : Z) :
  d3_csv newDate rows initial_buckets = (Normal trips, b) →
  0 ≤ f ≤ 1439 →
  filterByMinute (departuresByMinute b) NO_FILTER ≡ₚ trips
  ∧ filterByMinute (arrivalsByMinute b) NO_FILTER ≡ₚ trips
  ∧ (∀ t, t ∈ filterByMinute (departuresByMinute b) f ↔
          t ∈ trips ∧ ∃ m : Z, start_minute t = Num m ∧ (m - f + 60) mod 1440 < 120)
  ∧ (∀ t, t ∈ filterByMinute (arrivalsByMinute b) f ↔
          t ∈ trips ∧ ∃ m : Z, end_minute t = Num m ∧ (m - f + 60) mod 1440 < 120).
Proof.
  intros Hrun Hf.
  destruct (d3_csv_Normal newDate rows initial_buckets b [] trips
              (bucketed_empty _) (bucketed_empty _) Hrun) as (_ & Hd & Ha).
  simpl in Hd, Ha.
  assert (Hwin : ∀ (key : trip → number) (arr : list (list trip)),
            bucketed key arr trips →
            ∀ t, t ∈ filterByMinute arr f ↔
                 t ∈ trips ∧ ∃ m : Z, key t = Num m ∧ (m - f + 60) mod 1440 < 120).
  { intros key arr (Hlen & Hperm & Hslot) t.
    rewrite (filterByMinute_elem_of arr f Hlen Hf). split.
    - intros (m & Hm & Ht & Hdist). split.
      + rewrite <- Hperm. apply elem_of_concat. exists (slot arr m). split; [done|].
        unfold slot in *. destruct (arr !! m) as [s|] eqn:Hs; [|by inversion Ht].
        apply list_elem_of_lookup. eauto.
      + exists (Z.of_nat m). split; [by apply Hslot|done].
    - intros (Ht & m & Hkey & Hdist).
      rewrite <- Hperm in Ht. apply elem_of_concat in Ht as (s & Hts & Hs).
      apply list_elem_of_lookup in Hs as (k & Hk).
      assert (Hin : t ∈ slot arr k) by (unfold slot; by rewrite Hk).
      pose proof (Hslot k t Hin) as Hkey'. rewrite Hkey in Hkey'.
      injection Hkey' as ->.
      exists k. split; [|done]. rewrite <- Hlen. by eapply lookup_lt_Some. }
  split; [by destruct Hd as (_ & ? & _)|].
  split; [by destruct Ha as (_ & ? & _)|].
  split; by apply Hwin.
Qed.

(** ** The aggregation, further *)

(** The three fields after a call, read through the heap. *)
Lemma computeStationTraffic_fields (b : buckets) (stations : list loc) (f : Z) (h : heap) :
  allocated h stations →
  ∃ h', computeStationTraffic b stations f h = Some (stations, h')
    ∧ (∀ l, station_id h' l = station_id h l)
    ∧ ∀ l, l ∈ stations →
        let departures :=
          count_by start_station_id (station_id h l)
            (filterByMinute (departuresByMinute b) f) in
        let arrivals :=
          count_by end_station_id (station_id h l)
            (filterByMinute (arrivalsByMinute b) f) in
        read_field h' l "departures" = VInt departures
        ∧ read_field h' l "arrivals" = VInt arrivals
        ∧ read_field h' l "totalTraffic" = VInt (arrivals + departures).
Proof.
  intros Halloc.
  destruct (computeStationTraffic_heap b stations f h Halloc) as (h' & Hrun & Hh').
  exists h'. split; [done|]. split.
  - intros l. unfold station_id. rewrite Hh'. case_decide; [|done].
    destruct (h !! l) as [o|]; simpl; [|done]. apply write_traffic_id.
  - intros l Hl. cbv zeta. unfold read_field, station_id, get_field.
    rewrite Hh'. rewrite decide_True by done.
    destruct (Halloc l Hl) as [o ->]. simpl.
    rewrite write_traffic_departures, write_traffic_arrivals, write_traffic_total.
    simpl. fold (get_field o "short_name").
    destruct (rollup_count (filterByMinute (departuresByMinute b) f)
                start_station_id (get_field o "short_name")) as [-> _].
    destruct (rollup_count (filterByMinute (arrivalsByMinute b) f)
                end_station_id (get_field o "short_name")) as [-> _].
    done.
Qed.

Lemma count_by_bounds {A : Type} (key : A → value) (id : value) (l : list A) :
  0 ≤ count_by key id l ≤ Z.of_nat (length l).
Proof.
  unfold count_by. pose proof (length_filter (fun x => key x = id) l). lia.
Qed.

(** X12. On bucket arrays of 1440 slots and for a filter of [-1, 1439],
    the counts that a call writes on a station are never negative and
    never more than the counts that the unfiltered call writes on it:
    filtering can only lower [departures], [arrivals] and [totalTraffic]. *)
Theorem filtered_counts_below_unfiltered (b : buckets) (stations : list loc) (f : Z)
  (h : heap) :
  length (departuresByMinute b) = MINUTES →
  length (arrivalsByMinute b) = MINUTES →
  -1 ≤ f ≤ 1439 →
  allocated h stations →
  ∃ hf h0,
    computeStationTraffic b stations f h = Some (stations, hf)
    ∧ computeStationTraffic b stations NO_FILTER h = Some (stations, h0)
    ∧ ∀ l, l ∈ stations →
        ∃ df af d0 a0 : Z,
          read_field hf l "departures" = VInt df
          ∧ read_field hf l "arrivals" = VInt af
          ∧ read_field hf l "totalTraffic" = VInt (af + df)
          ∧ read_field h0 l "departures" = VInt d0
          ∧ read_field h0 l "arrivals" = VInt a0
          ∧ read_field h0 l "totalTraffic" = VInt (a0 + d0)
          ∧ 0 ≤ df ≤ d0 ∧ 0 ≤ af ≤ a0.
Proof.
  intros Hd Ha Hf Halloc.
  destruct (computeStationTraffic_fields b stations f h Halloc) as (hf & Hrunf & _ & Hff).
  destruct (computeStationTraffic_fields b stations NO_FILTER h Halloc)
    as (h0 & Hrun0 & _ & Hf0).
  exists hf, h0. split; [done|]. split; [done|]. intros l Hl.
  destruct (Hff l Hl) as (H1 & H2 & H3). destruct (Hf0 l Hl) as (H4 & H5 & H6).
  eexists _, _, _, _. repeat (split; [eassumption|]).
  rewrite !filterByMinute_no_filter.
  split; (split; [apply count_by_bounds|]);
    apply count_by_submseteq; by apply filterByMinute_submseteq.
Qed.

Lemma count_known_le {A : Type} (key : A → value) (ids : list value) (l : list A) :
  count_known key ids l ≤ Z.of_nat (length l).
Proof.
  unfold count_known. pose proof (length_filter (fun x => key x ∈ ids) l). lia.
Qed.

(** X13. No trip is counted twice: for stations with pairwise distinct ids
    and any filter, the sum of [totalTraffic] that a call leaves is at most
    the number of trips of the departures window plus the number of trips
    of the arrivals window. *)
Theorem traffic_sum_at_most_windows (b : buckets) (stations : list loc) (f : Z)
  (h : heap) :
  allocated h stations →
  NoDup (map (station_id h) stations) →
  ∃ h' total,
    computeStationTraffic b stations f h = Some (stations, h')
    ∧ traffic_sum h' stations = Some total
    ∧ 0 ≤ total
      ≤ Z.of_nat (length (filterByMinute (departuresByMinute b) f))
        + Z.of_nat (length (filterByMinute (arrivalsByMinute b) f)).
Proof.
  intros Halloc Hnd.
  destruct (computeStationTraffic_sum b stations f h Halloc Hnd) as (h' & Hrun & Hsum).
  exists h'. eexists. split; [done|]. split; [exact Hsum|].
  pose proof (count_known_le start_station_id (map (station_id h) stations)
                (filterByMinute (departuresByMinute b) f)).
  pose proof (count_known_le end_station_id (map (station_id h) stations)
                (filterByMinute (arrivalsByMinute b) f)).
  unfold count_known in *. lia.
Qed.

(** ** The colour of a circle *)

Lemma ratio_bounds (d t : Z) :
  0 ≤ d ≤ t → 0 < t → (0 <= IZR d / IZR t <= 1)%R.
Proof.
  intros Hd Ht.
  assert (Ht' : (0 < IZR t)%R) by (by apply IZR_lt).
  assert (Hd' : (0 <= IZR d <= IZR t)%R) by (split; apply IZR_le; lia).
  split.
  - apply Rmult_le_pos; [lra|]. left. by apply Rinv_0_lt_compat.
  - apply (Rmult_le_reg_r (IZR t)); [done|].
    unfold Rdiv. rewrite Rmult_assoc, Rinv_l by lra. lra.
Qed.

(** X14. After any call of [computeStationTraffic], the departure ratio of
    every station of the array is defined and lies in [0, 1], and it is 0.5
    on a station whose [totalTraffic] is 0. *)
Theorem station_ratio_in_unit_interval (b : buckets) (stations : list loc) (f : Z)
  (h : heap) :
  allocated h stations →
  ∃ h', computeStationTraffic b stations f h = Some (stations, h')
    ∧ ∀ l, l ∈ stations →
        ∃ (d : obj) (r : R),
          h' !! l = Some d ∧ station_ratio d = Some r
          ∧ (0 <= r <= 1)%R
          ∧ (get_field d "totalTraffic" = VInt 0 → r = 0.5%R).
Proof.
  intros Halloc.
  destruct (computeStationTraffic_fields b stations f h Halloc) as (h' & Hrun & _ & Hf).
  exists h'. split; [done|]. intros l Hl.
  pose proof (computeStationTraffic_allocated _ _ _ _ _ _ Halloc Halloc Hrun l Hl)
    as [d Hd].
  destruct (Hf l Hl) as (Hdep & _ & Htot). unfold read_field in Hdep, Htot.
  rewrite Hd in Hdep, Htot.
  pose proof (count_by_bounds start_station_id (station_id h l)
                (filterByMinute (departuresByMinute b) f)) as Hbd.
  pose proof (count_by_bounds end_station_id (station_id h l)
                (filterByMinute (arrivalsByMinute b) f)) as Hba.
  set (deps := count_by start_station_id _ _) in *.
  set (arrs := count_by end_station_id _ _) in *.
  exists d. unfold station_ratio. rewrite Htot, Hdep. simpl.
  destruct (Z.ltb_spec 0 (arrs + deps)) as [Hpos|Hzero].
  - eexists. split; [done|]. split; [done|]. split.
    + apply ratio_bounds; lia.
    + intros [= H0]. lia.
  - eexists. split; [done|]. split; [done|]. split; [lra|done].
Qed.

Lemma stationFlow_cases (x : R) :
  stationFlow x
  = if Rle_dec (1 / 3) x then (if Rle_dec (2 / 3) x then 1%R else 0.5%R) else 0%R.
Proof.
  unfold stationFlow, quantize_threshold, bisectRight. simpl INR.
  replace (((0 + 1) * 1 - (0 - (1 + 1)) * 0) / (1 + 1 + 1))%R with (1 / 3)%R by lra.
  replace (((1 + 1) * 1 - (1 - (1 + 1)) * 0) / (1 + 1 + 1))%R with (2 / 3)%R by lra.
  destruct (Rle_dec (1 / 3) x); [|done]. by destruct (Rle_dec (2 / 3) x).
Qed.

(** X15. The quantized colour in terms of the counts: a station with
    traffic gets 1 exactly when its departures are at least twice its
    arrivals and 0 exactly when its arrivals are more than twice its
    departures, and 0.5 in between; a station without traffic gets 0.5. *)
Theorem stationFlow_by_counts (departures arrivals : Z) :
  0 ≤ departures → 0 ≤ arrivals →
  let flow := stationFlow (departure_ratio departures (arrivals + departures)) in
  (0 < arrivals + departures → 2 * arrivals ≤ departures → flow = 1%R)
  ∧ (2 * departures < arrivals → flow = 0%R)
  ∧ (0 < arrivals + departures → departures < 2 * arrivals →
     arrivals ≤ 2 * departures → flow = 0.5%R)
  ∧ (arrivals + departures = 0 → flow = 0.5%R).
Proof.
  intros Hd Ha. cbv zeta. rewrite stationFlow_cases. unfold departure_ratio.
  assert (Hcast : ∀ x y : Z, x ≤ y → (IZR x <= IZR y)%R) by (intros; by apply IZR_le).
  assert (Hcastlt : ∀ x y : Z, x < y → (IZR x < IZR y)%R) by (intros; by apply IZR_lt).
  destruct (Z.ltb_spec 0 (arrivals + departures)) as [Hpos|Hzero].
  - set (t := arrivals + departures) in *.
    assert (Ht : (0 < IZR t)%R) by (by apply Hcastlt).
    assert (Hsum : (IZR t = IZR arrivals + IZR departures)%R)
      by (unfold t; by rewrite plus_IZR).
    assert (Hr : (IZR departures / IZR t * IZR t = IZR departures)%R)
      by (field; lra).
    set (r := (IZR departures / IZR t)%R) in *.
    assert (Hrb : (0 <= r <= 1)%R) by (apply ratio_bounds; lia).
    split; [|split; [|split]].
    + intros _ Hheavy. apply Hcast in Hheavy. rewrite mult_IZR in Hheavy.
      destruct (Rle_dec (1 / 3) r) as [H1|H1];
        [destruct (Rle_dec (2 / 3) r) as [H2|H2]; [done|]|]; exfalso; nra.
    + intros Hlight. apply Hcastlt in Hlight. rewrite mult_IZR in Hlight.
      destruct (Rle_dec (1 / 3) r) as [H1|H1]; [|done]. exfalso. nra.
    + intros _ H1 H2. apply Hcastlt in H1. apply Hcast in H2.
      rewrite mult_IZR in H1, H2.
      destruct (Rle_dec (1 / 3) r) as [H3|H3];
        [destruct (Rle_dec (2 / 3) r) as [H4|H4]; [|done]|]; exfalso; nra.
    + intros H0. lia.
  - assert (Hhalf : (if Rle_dec (1 / 3) 0.5
                     then if Rle_dec (2 / 3) 0.5 then 1 else 0.5 else 0)%R = 0.5%R).
    { destruct (Rle_dec (1 / 3) 0.5) as [_|H]; [|exfalso; lra].
      destruct (Rle_dec (2 / 3) 0.5) as [H|_]; [exfalso; lra|done]. }
    rewrite Hhalf. split; [intros; lia|]. split; [intros; lia|].
    split; [intros; lia|done].
Qed.

(** ** The position of a circle *)

(** X17. Recomputing the traffic never moves a circle: whatever the
    filter, the longitude and the latitude that [getCoords] takes from a
    station object are the same after [computeStationTraffic] as before. *)
Theorem computeStationTraffic_keeps_coords (b : buckets) (stations : list loc) (f : Z)
  (h : heap) :
  allocated h stations →
  ∃ h', computeStationTraffic b stations f h = Some (stations, h')
    ∧ ∀ l o, h !! l = Some o →
        ∃ o', h' !! l = Some o'
          ∧ getCoords_lon o' = getCoords_lon o
          ∧ getCoords_lat o' = getCoords_lat o.
Proof.
  intros Halloc.
  destruct (computeStationTraffic_heap b stations f h Halloc) as (h' & Hrun & Hh').
  exists h'. split; [done|]. intros l o Ho. rewrite Hh', Ho.
  case_decide; simpl; [|by exists o].
  eexists. split; [done|].
  unfold getCoords_lon, getCoords_lat, get_field.
  by rewrite !write_traffic_other.
Qed.

(** ** Slider events *)

Lemma computeStationTraffic_overwrites (b : buckets) (stations : list loc) (f1 f2 : Z)
  (h h1 : heap) :
  allocated h stations →
  computeStationTraffic b stations f1 h = Some (stations, h1) →
  computeStationTraffic b stations f2 h1 = computeStationTraffic b stations f2 h.
Proof.
  intros Halloc Hrun1.
  destruct (computeStationTraffic_heap b stations f1 h Halloc) as (h1' & Hrun1' & Hh1).
  rewrite Hrun1 in Hrun1'. injection Hrun1' as <-.
  assert (Halloc1 : allocated h1 stations)
    by (by eapply computeStationTraffic_allocated).
  destruct (computeStationTraffic_heap b stations f2 h1 Halloc1) as (h2 & Hrun2 & Hh2).
  destruct (computeStationTraffic_heap b stations f2 h Halloc) as (h2' & Hrun2' & Hh2').
  rewrite Hrun2, Hrun2'. do 2 f_equal. apply map_eq. intros l.
  rewrite Hh2, Hh2', Hh1. case_decide; [|done].
  destruct (h !! l) as [o|]; simpl; [|done].
  by rewrite write_traffic_absorb.
Qed.

Lemma updateScatterPlot_run (b : buckets) (f : Z) (p : page) :
  allocated (station_heap p) (originalStations p) →
  ∃ h1,
    computeStationTraffic b (originalStations p) f (station_heap p)
      = Some (originalStations p, h1)
    ∧ allocated h1 (originalStations p)
    ∧ (∀ l, station_id h1 l = station_id (station_heap p) l)
    ∧ updateScatterPlot b f p
      = Some (originalStations p,
              {| originalStations := originalStations p;
                 station_heap := h1;
                 radiusScale :=
                   set_range (if f =? -1 then (0, 25) else (3, 50)) (radiusScale p) |}).
Proof.
  intros Halloc.
  destruct (computeStationTraffic_fields b (originalStations p) f (station_heap p) Halloc)
    as (h1 & Hrun & Hid & _).
  exists h1. split; [done|]. split; [by eapply computeStationTraffic_allocated|].
  split; [done|].
  unfold updateScatterPlot. rewrite Hrun. by destruct (f =? -1).
Qed.

(** X18. What the page shows after a run of slider events depends on the
    last event only: any run of events followed by an event with filter
    [f] leaves the page (stations, their traffic fields, the scale) that
    the single event with filter [f] leaves. *)
Theorem slide_last_filter_only (b : buckets) (filters : list Z) (f : Z) (p : page) :
  allocated (station_heap p) (originalStations p) →
  ∃ p', slide b (filters ++ [f]) p = Some p' ∧ slide b [f] p = Some p'.
Proof.
  revert p. induction filters as [|f0 filters IH]; intros p Halloc.
  - destruct (updateScatterPlot_run b f p Halloc) as (h1 & _ & _ & _ & Hup).
    simpl. rewrite Hup. eauto.
  - destruct (updateScatterPlot_run b f0 p Halloc) as (h1 & Hrun1 & Halloc1 & _ & Hup1).
    cbn [app slide]. rewrite Hup1.
    set (p1 := {| originalStations := originalStations p; station_heap := h1;
                  radiusScale := set_range _ (radiusScale p) |}) in *.
    destruct (IH p1 Halloc1) as (p' & Hall & Hlast).
    exists p'. split; [done|]. rewrite <- Hlast.
    destruct (updateScatterPlot_run b f p Halloc) as (h2 & Hrun2 & _ & _ & Hup2).
    destruct (updateScatterPlot_run b f p1 Halloc1) as (h2' & Hrun2' & _ & _ & Hup2').
    simpl. rewrite Hup2, Hup2'. simpl in Hrun2'.
    rewrite (computeStationTraffic_overwrites b _ f0 f _ _ Halloc Hrun1) in Hrun2'.
    rewrite Hrun2 in Hrun2'. injection Hrun2' as <-. done.
Qed.

(** ** The radius of a circle *)

Lemma scale_apply_within_range (s : sqrt_scale) (dmax x : Z) :
  scale_domain s = (Num 0, Num dmax) → 0 < dmax → 0 ≤ x ≤ dmax →
  fst (scale_range s) ≤ snd (scale_range s) →
  ∃ r, scale_apply s x = Some r
       ∧ (IZR (fst (scale_range s)) <= r <= IZR (snd (scale_range s)))%R.
Proof.
  intros Hdom Hmax Hx Hrange.
  rewrite (scale_apply_sqrt s dmax x) by (done || lia).
  eexists. split; [done|].
  assert (Hmax' : (0 < IZR dmax)%R) by (by apply IZR_lt).
  assert (Hx' : (0 <= IZR x <= IZR dmax)%R) by (split; apply IZR_le; lia).
  assert (Hr : (IZR (fst (scale_range s)) <= IZR (snd (scale_range s)))%R)
    by (by apply IZR_le).
  pose proof (ratio_bounds x dmax Hx Hmax) as Hq.
  assert (Hs : (0 <= sqrt (IZR x / IZR dmax) <= 1)%R).
  { split; [apply sqrt_pos|]. rewrite <- sqrt_1. apply sqrt_le_1_alt. lra. }
  nra.
Qed.

(** X19. On a domain [[0, dmax]] with [dmax > 0] and a range [[r0, r1]]
    with [r0 ≤ r1], the radius scale takes 0 to [r0] and [dmax] to [r1],
    and it is monotone: a station with more traffic never gets a smaller
    radius. *)
Theorem scale_apply_monotone (s : sqrt_scale) (dmax x y : Z) :
  scale_domain s = (Num 0, Num dmax) → 0 < dmax →
  fst (scale_range s) ≤ snd (scale_range s) →
  0 ≤ x ≤ y →
  scale_apply s 0 = Some (IZR (fst (scale_range s)))
  ∧ scale_apply s dmax = Some (IZR (snd (scale_range s)))
  ∧ ∃ rx ry, scale_apply s x = Some rx ∧ scale_apply s y = Some ry ∧ (rx <= ry)%R.
Proof.
  intros Hdom Hmax Hrange Hxy.
  assert (Hmax' : (0 < IZR dmax)%R) by (by apply IZR_lt).
  assert (Hr : (IZR (fst (scale_range s)) <= IZR (snd (scale_range s)))%R)
    by (by apply IZR_le).
  split; [|split].
  - rewrite (scale_apply_sqrt s dmax 0) by (done || lia). f_equal.
    replace (0 / IZR dmax)%R with 0%R by (field; lra). rewrite sqrt_0. lra.
  - rewrite (scale_apply_sqrt s dmax dmax) by (done || lia). f_equal.
    replace (IZR dmax / IZR dmax)%R with 1%R by (field; lra). rewrite sqrt_1. lra.
  - rewrite (scale_apply_sqrt s dmax x), (scale_apply_sqrt s dmax y) by (done || lia).
    eexists _, _. split; [done|]. split; [done|].
    assert (Hx : (0 <= IZR x <= IZR y)%R) by (split; apply IZR_le; lia).
    assert (Hq : (IZR x / IZR dmax <= IZR y / IZR dmax)%R).
    { unfold Rdiv. apply Rmult_le_compat_r; [|lra]. left. by apply Rinv_0_lt_compat. }
    apply sqrt_le_1_alt in Hq. nra.
Qed.

Lemma slide_invariant (b : buckets) (filters : list Z) :
  ∀ p p' : page,
    allocated (station_heap p) (originalStations p) →
    slide b filters p = Some p' →
    allocated (station_heap p') (originalStations p)
    ∧ ∀ l, station_id (station_heap p') l = station_id (station_heap p) l.
Proof.
  induction filters as [|f filters IH]; intros p p' Halloc; simpl.
  - by intros [= <-].
  - destruct (updateScatterPlot_run b f p Halloc) as (h1 & _ & Halloc1 & Hid & Hup).
    rewrite Hup. intros Hrest. apply IH in Hrest as [Halloc' Hid']; [|done].
    simpl in *. split; [done|]. intros l. by rewrite Hid'.
Qed.

(** X20. The circles stay within the range of the scale. With bucket
    arrays of 1440 slots and a scale whose domain maximum is positive,
    after the page has loaded, any run of slider events and an event with
    a filter of [-1, 1439], the radius of every station is defined and
    lies between the two bounds of the range then in force ([[0, 25]]
    unfiltered, [[3, 50]] filtered): the filtered traffic of a station
    never exceeds the domain maximum taken from the unfiltered traffic. *)
Theorem circle_r_within_range (b : buckets) (stations0 : list loc) (h : heap)
  (p0 p1 p2 : page) (filters : list Z) (f dmax : Z) (out : list loc) :
  length (departuresByMinute b) = MINUTES →
  length (arrivalsByMinute b) = MINUTES →
  allocated h stations0 →
  load_page b stations0 h = Some p0 →
  slide b filters p0 = Some p1 →
  updateScatterPlot b f p1 = Some (out, p2) →
  -1 ≤ f ≤ 1439 →
  scale_domain (radiusScale p0) = (Num 0, Num dmax) →
  0 < dmax →
  ∀ l, l ∈ stations0 →
    ∃ r, circle_r p2 l = Some r
         ∧ (IZR (fst (scale_range (radiusScale p2))) <= r
            <= IZR (snd (scale_range (radiusScale p2))))%R.
Proof.
  intros Hd Ha Halloc Hload Hslide Hupdate Hf Hdom Hmax l Hl.
  unfold load_page in Hload.
  destruct (computeStationTraffic_fields b stations0 NO_FILTER h Halloc)
    as (h0 & Hrun0 & Hid0 & Hf0).
  rewrite Hrun0 in Hload. injection Hload as <-. simpl in Hdom.
  injection Hdom as Hmaxeq.
  assert (Halloc0 : allocated h0 stations0)
    by (by eapply computeStationTraffic_allocated).
  pose proof (slide_scale _ _ _ _ Hslide) as [Horig1 Hdom1].
  apply slide_invariant in Hslide as [Halloc1 Hid1]; [|done].
  simpl in Horig1, Hdom1, Halloc1, Hid1.
  assert (Halloc1' : allocated (station_heap p1) (originalStations p1))
    by (by rewrite Horig1).
  destruct (computeStationTraffic_fields b (originalStations p1) f (station_heap p1)
              Halloc1') as (h2 & Hrun2 & _ & Hf2).
  destruct (updateScatterPlot_run b f p1 Halloc1') as (h2' & Hrun2' & _ & _ & Hup).
  rewrite Hrun2 in Hrun2'. injection Hrun2' as <-.
  rewrite Hup in Hupdate. injection Hupdate as _ <-.
  rewrite Horig1 in Hf2.
  destruct (Hf2 l Hl) as (_ & _ & Htot2). destruct (Hf0 l Hl) as (_ & _ & Htot0).
  rewrite Hid1, Hid0 in Htot2. rewrite !filterByMinute_no_filter in Htot0.
  set (df := count_by start_station_id (station_id h l)
               (filterByMinute (departuresByMinute b) f)) in *.
  set (af := count_by end_station_id (station_id h l)
               (filterByMinute (arrivalsByMinute b) f)) in *.
  set (d0 := count_by start_station_id (station_id h l)
               (concat (departuresByMinute b))) in *.
  set (a0 := count_by end_station_id (station_id h l)
               (concat (arrivalsByMinute b))) in *.
  assert (Hdf : 0 ≤ df ≤ d0).
  { split; [apply count_by_bounds|].
    apply count_by_submseteq. by apply filterByMinute_submseteq. }
  assert (Haf : 0 ≤ af ≤ a0).
  { split; [apply count_by_bounds|].
    apply count_by_submseteq. by apply filterByMinute_submseteq. }
  assert (Hle : a0 + d0 ≤ dmax).
  { apply d3_max_spec in Hmaxeq as [_ Hall]. apply Hall.
    apply list_elem_of_fmap. exists l. split; [|done]. by symmetry. }
  unfold circle_r. cbn [station_heap radiusScale].
  change (totalTraffic_of h2 l) with (read_field h2 l "totalTraffic").
  rewrite Htot2. cbn [as_int].
  apply (scale_apply_within_range _ dmax).
  - cbn [set_range scale_domain]. rewrite Hdom1. simpl. by rewrite Hmaxeq.
  - done.
  - lia.
  - cbn [set_range scale_range]. destruct (f =? -1); simpl; lia.
Qed.

Lemma d3_max_zero (values : list value) :
  values ≠ [] → (∀ v, v ∈ values → v = VInt 0) → d3_max values = Num 0.
Proof.
  induction values as [|v values IH]; [done|]. intros _ Hall. simpl.
  rewrite (Hall v) by (by left). simpl.
  destruct values as [|w values]; [done|].
  rewrite IH; [done|done|]. intros u Hu. apply Hall. by right.
Qed.

(** X21. When no station has any traffic the domain of the radius scale is
    [[0, 0]], and the square-root scale then gives every station the
    middle of its range: 12.5 right after the page has loaded, not the
    minimum radius 0. *)
Theorem circle_r_without_traffic (b : buckets) (stations0 : list loc) (h : heap)
  (p0 : page) :
  load_page b stations0 h = Some p0 →
  (∀ l, l ∈ stations0 → totalTraffic_of (station_heap p0) l = VInt 0) →
  ∀ l, l ∈ stations0 →
    scale_domain (radiusScale p0) = (Num 0, Num 0)
    ∧ circle_r p0 l = Some 12.5%R.
Proof.
  intros Hload Hzero l Hl. unfold load_page in Hload.
  destruct (computeStationTraffic b stations0 NO_FILTER h) as [[stations h0]|] eqn:Hrun;
    [|done].
  injection Hload as <-. simpl in *.
  pose proof Hrun as Hout. apply array_map_station_callback_Some in Hout as [-> _].
  assert (Hmax : d3_max (map (totalTraffic_of h0) stations0) = Num 0).
  { apply d3_max_zero.
    - intros Hnil. apply map_eq_nil in Hnil. subst. inversion Hl.
    - intros v Hv. apply list_elem_of_fmap in Hv as (l' & -> & Hl'). by apply Hzero. }
  rewrite Hmax. split; [done|].
  unfold circle_r. simpl. rewrite (Hzero l Hl). simpl.
  unfold scale_apply. simpl. f_equal.
  rewrite transformSqrt_nonneg by lra. rewrite sqrt_0.
  unfold bimap. destruct (Rlt_dec 0 0) as [Hlt|_]; [lra|].
  unfold normalize. destruct (Req_dec_T (0 - 0) 0) as [_|Hne]; [|lra].
  unfold interpolateNumber. lra.
Qed.

(** ** Trips of stations that are not on the list *)

Section FilterWindow.
Context (P : trip → Prop) `{!∀ t, Decision (P t)}.

Lemma filter_concat (l : list (list trip)) :
  filter P (concat l) = concat (map (filter (B := list trip) P) l).
Proof.
  induction l as [|s l IH]; [done|]. simpl. by rewrite filter_app, IH.
Qed.

Lemma slice_map (l : list (list trip)) (a : Z) (e : option Z) :
  slice (map (filter (B := list trip) P) l) a e = map (filter (B := list trip) P) (slice l a e).
Proof.
  unfold slice. rewrite length_map.
  change (map (filter (B := list trip) P)) with (fmap (M := list) (filter (B := list trip) P)).
  by rewrite fmap_take, fmap_drop.
Qed.

(** Filtering the result of a query is querying the filtered slots. *)
Lemma filter_filterByMinute (b : list (list trip)) (f : Z) :
  filter P (filterByMinute b f) = filterByMinute (map (filter (B := list trip) P) b) f.
Proof.
  unfold filterByMinute, flat. destruct (f =? -1); [apply filter_concat|].
  destruct (_ >? _).
  - rewrite filter_concat, map_app, !slice_map. done.
  - rewrite filter_concat, slice_map. done.
Qed.

Lemma filter_push_other (arr : list (list trip)) (m : nat) (x : trip) :
  ¬ P x →
  map (filter (B := list trip) P) (<[m := slot arr m ++ [x]]> arr) = map (filter (B := list trip) P) arr.
Proof.
  intros Hx. change (map (filter (B := list trip) P)) with (fmap (M := list) (filter (B := list trip) P)).
  rewrite list_fmap_insert, filter_app, filter_cons, decide_False by done.
  rewrite filter_nil, app_nil_r. apply list_eq. intros i.
  rewrite list_lookup_insert. case_decide as Hi; [|done].
  destruct Hi as [<- Hlt]. rewrite list_lookup_fmap. unfold slot.
  rewrite length_fmap in Hlt.
  destruct (lookup_lt_is_Some_2 arr m Hlt) as [s ->]. done.
Qed.
End FilterWindow.

Lemma count_by_push_other (key : trip → value) (id : value) (arr : list (list trip))
  (m : nat) (x : trip) (f : Z) :
  key x ≠ id →
  count_by key id (filterByMinute (<[m := slot arr m ++ [x]]> arr) f)
  = count_by key id (filterByMinute arr f).
Proof.
  intros Hx. unfold count_by.
  rewrite !(filter_filterByMinute (fun t => key t = id)).
  by rewrite filter_push_other.
Qed.

Lemma write_traffic_ext (D A D' A' : list (value * Z)) (o : obj) :
  default 0 (map_get D (get_field o "short_name"))
    = default 0 (map_get D' (get_field o "short_name")) →
  default 0 (map_get A (get_field o "short_name"))
    = default 0 (map_get A' (get_field o "short_name")) →
  write_traffic D A o = write_traffic D' A' o.
Proof. intros HD HA. unfold write_traffic. by rewrite HD, HA. Qed.

(** X22. A trip of stations that are not on the list changes nothing:
    pushing on the two bucket arrays a trip whose start and end station ids
    are the id of no station of the array leaves the outcome of
    [computeStationTraffic], array and heap, as it was, for every filter. *)
Theorem unknown_stations_trip_ignored (b : buckets) (stations : list loc) (f : Z)
  (h : heap) (x : trip) (ms me : nat) :
  allocated h stations →
  (∀ l, l ∈ stations →
     start_station_id x ≠ station_id h l ∧ end_station_id x ≠ station_id h l) →
  computeStationTraffic
    {| departuresByMinute :=
         <[ms := slot (departuresByMinute b) ms ++ [x]]> (departuresByMinute b);
       arrivalsByMinute :=
         <[me := slot (arrivalsByMinute b) me ++ [x]]> (arrivalsByMinute b) |}
    stations f h
  = computeStationTraffic b stations f h.
Proof.
  intros Halloc Hunknown.
  set (b' := {| departuresByMinute := _; arrivalsByMinute := _ |}).
  destruct (computeStationTraffic_heap b' stations f h Halloc) as (h1 & Hrun1 & Hh1).
  destruct (computeStationTraffic_heap b stations f h Halloc) as (h2 & Hrun2 & Hh2).
  rewrite Hrun1, Hrun2. do 2 f_equal. apply map_eq. intros l.
  rewrite Hh1, Hh2. case_decide as Hl; [|done].
  destruct (Halloc l Hl) as [o Ho]. rewrite Ho. simpl. f_equal.
  destruct (Hunknown l Hl) as [Hs He]. unfold station_id in Hs, He.
  rewrite Ho in Hs, He.
  apply write_traffic_ext.
  - rewrite !(proj1 (rollup_count _ _ _)). by apply count_by_push_other.
  - rewrite !(proj1 (rollup_count _ _ _)). by apply count_by_push_other.
Qed.

(** X23. Right after the page has loaded with a positive domain maximum,
    a busiest station, one whose [totalTraffic] is the domain maximum,
    exists and its circle has the full radius 25, and no circle has a
    larger one. *)
Theorem busiest_station_radius (b : buckets) (stations0 : list loc) (h : heap)
  (p0 : page) (dmax : Z) :
  load_page b stations0 h = Some p0 →
  scale_domain (radiusScale p0) = (Num 0, Num dmax) →
  0 < dmax →
  (∃ l, l ∈ stations0
        ∧ totalTraffic_of (station_heap p0) l = VInt dmax
        ∧ circle_r p0 l = Some 25%R)
  ∧ ∀ l n r, l ∈ stations0 → totalTraffic_of (station_heap p0) l = VInt n → 0 ≤ n →
             circle_r p0 l = Some r → (r <= 25)%R.
Proof.
  intros Hload Hdom Hmax. unfold load_page in Hload.
  destruct (computeStationTraffic b stations0 NO_FILTER h) as [[stations h0]|] eqn:Hrun;
    [|done].
  injection Hload as <-. simpl in *.
  pose proof Hrun as Hout. apply array_map_station_callback_Some in Hout as [-> _].
  injection Hdom as Hmaxeq. apply d3_max_spec in Hmaxeq as Hspec.
  destruct Hspec as [Hin Hall].
  set (s := {| scale_domain := (Num 0, d3_max (map (totalTraffic_of h0) stations0));
               scale_range := (0, 25) |}).
  assert (Hsdom : scale_domain s = (Num 0, Num dmax)) by (simpl; by rewrite Hmaxeq).
  split.
  - apply list_elem_of_fmap in Hin as (l & Heq & Hl). exists l.
    split; [done|]. split; [done|].
    unfold circle_r. simpl. rewrite <- Heq. simpl. fold s.
    rewrite (scale_apply_sqrt s dmax dmax) by (done || lia). f_equal. simpl.
    replace (IZR dmax / IZR dmax)%R with 1%R
      by (field; apply IZR_lt in Hmax; lra).
    rewrite sqrt_1. lra.
  - intros l n r Hl Hn Hn0. unfold circle_r. simpl. rewrite Hn. simpl. fold s.
    assert (Hle : n ≤ dmax).
    { apply Hall. rewrite <- Hn. apply list_elem_of_fmap. by exists l. }
    destruct (scale_apply_within_range s dmax n Hsdom Hmax) as (r' & Hr' & Hb);
      [lia|simpl; lia|].
    rewrite Hr'. intros [= <-]. simpl in Hb. lra.
Qed.

(** ** The further properties at the data set *)

Lemma sample_lengths :
  length (departuresByMinute sample_buckets) = MINUTES
  ∧ length (arrivalsByMinute sample_buckets) = MINUTES.
Proof. split; vm_compute; reflexivity. Qed.

Lemma sample_window_30 :
  filterByMinute (departuresByMinute sample_buckets) 30
  = [convert_dates sample_newDate row_BA; convert_dates sample_newDate row_AB].
Proof. vm_compute. reflexivity. Qed.

Lemma sample_nodup : NoDup (map (station_id sample_heap) sample_stations).
Proof.
  rewrite sample_ids. apply NoDup_cons. split.
  - intros H. apply list_elem_of_singleton in H. discriminate H.
  - apply NoDup_singleton.
Qed.

(** The page of the data set after loading: both stations have a total
    traffic of 2, which is the domain maximum. *)
Lemma sample_load_page :
  ∃ p0, load_page sample_buckets sample_stations sample_heap = Some p0
        ∧ originalStations p0 = sample_stations
        ∧ allocated (station_heap p0) sample_stations
        ∧ scale_domain (radiusScale p0) = (Num 0, Num 2).
Proof.
  destruct (computeStationTraffic_fields sample_buckets sample_stations NO_FILTER
              sample_heap sample_allocated) as (h0 & Hrun & _ & Hf).
  eexists. unfold load_page. rewrite Hrun. split; [reflexivity|]. simpl.
  split; [done|].
  split; [exact (computeStationTraffic_allocated _ _ _ _ _ _
                   sample_allocated sample_allocated Hrun)|].
  destruct (Hf 0%nat ltac:(by left)) as (_ & _ & H0).
  destruct (Hf 1%nat ltac:(right; by left)) as (_ & _ & H1).
  unfold read_field in H0, H1. unfold totalTraffic_of. rewrite H0, H1.
  vm_compute. reflexivity.
Qed.

(** The same stations with no trip at all. *)
Lemma empty_load_page :
  ∃ p0, load_page initial_buckets sample_stations sample_heap = Some p0
        ∧ ∀ l, l ∈ sample_stations → totalTraffic_of (station_heap p0) l = VInt 0.
Proof.
  destruct (computeStationTraffic_fields initial_buckets sample_stations NO_FILTER
              sample_heap sample_allocated) as (h0 & Hrun & _ & Hf).
  eexists. unfold load_page. rewrite Hrun. split; [reflexivity|]. simpl.
  intros l Hl. destruct (Hf l Hl) as (_ & _ & H0).
  unfold read_field in H0. unfold totalTraffic_of. rewrite H0.
  unfold sample_stations in Hl.
  apply elem_of_cons in Hl as [->|Hl]; [vm_compute; reflexivity|].
  apply elem_of_cons in Hl as [->|Hl]; [vm_compute; reflexivity|].
  inversion Hl.
Qed.

Lemma minutesSinceMidnight_same_minute_sample :
  minutesSinceMidnight (DateAt (day0 + 30000 + 1 * 86400000))
  = minutesSinceMidnight (DateAt day0).
Proof.
  apply (minutesSinceMidnight_same_minute day0 1 30000); [reflexivity|].
  unfold msPerMinute. lia.
Defined.

Lemma filterByMinute_cyclic_distance_sample :
  convert_dates sample_newDate row_AB
  ∈ filterByMinute (departuresByMinute sample_buckets) 5.
Proof.
  apply (filterByMinute_cyclic_distance (departuresByMinute sample_buckets) 5);
    [vm_compute; reflexivity|lia|].
  change (Z.to_nat 5) with 5%nat. rewrite (proj1 sample_slots). left.
Defined.

Lemma filterByMinute_only_bucketed_sample :
  convert_dates sample_newDate row_AB ∈ concat (departuresByMinute sample_buckets).
Proof.
  apply (filterByMinute_only_bucketed (departuresByMinute sample_buckets) 30).
  rewrite sample_window_30. right. left.
Defined.

Lemma filterByMinute_within_buckets_sample :
  (length (filterByMinute (departuresByMinute sample_buckets) 30)
   ≤ slot_total (departuresByMinute sample_buckets))%nat.
Proof.
  apply (filterByMinute_within_buckets (departuresByMinute sample_buckets) 30);
    [vm_compute; reflexivity|lia].
Defined.

Lemma d3_csv_slots_in_row_order_sample :
  slot (departuresByMinute sample_buckets) 5
  = filter (fun t => start_minute t = Num (Z.of_nat 5)) sample_trips.
Proof.
  apply (d3_csv_slots_in_row_order sample_newDate sample_rows sample_trips sample_buckets).
  vm_compute; reflexivity.
Defined.


Lemma d3_csv_accumulates_sample :
  d3_csv sample_newDate ([row_AB] ++ [row_BA]) initial_buckets
  = (Normal ([convert_dates sample_newDate row_AB] ++ [convert_dates sample_newDate row_BA]),
     sample_buckets).
Proof.
  apply (d3_csv_accumulates sample_newDate [row_AB] [row_BA] _ _
           (snd (d3_csv sample_newDate [row_AB] initial_buckets)) sample_buckets);
    vm_compute; reflexivity.
Defined.

Lemma ingested_window_sample :
  filterByMinute (departuresByMinute sample_buckets) NO_FILTER ≡ₚ sample_trips.
Proof.
  apply (ingested_window sample_newDate sample_rows sample_trips sample_buckets 30);
    [vm_compute; reflexivity|lia].
Defined.

Lemma filtered_counts_below_unfiltered_sample :
  ∃ hf h0,
    computeStationTraffic sample_buckets sample_stations 30 sample_heap
      = Some (sample_stations, hf)
    ∧ computeStationTraffic sample_buckets sample_stations NO_FILTER sample_heap
      = Some (sample_stations, h0).
Proof.
  destruct (filtered_counts_below_unfiltered sample_buckets sample_stations 30 sample_heap)
    as (hf & h0 & Hf & H0 & _);
    [vm_compute; reflexivity|vm_compute; reflexivity|lia|exact sample_allocated|].
  exists hf, h0. split; [exact Hf|exact H0].
Defined.

Lemma traffic_sum_at_most_windows_sample :
  ∃ h' total,
    computeStationTraffic sample_buckets sample_stations 30 sample_heap
      = Some (sample_stations, h')
    ∧ traffic_sum h' sample_stations = Some total.
Proof.
  destruct (traffic_sum_at_most_windows sample_buckets sample_stations 30 sample_heap
              sample_allocated sample_nodup) as (h' & total & Hrun & Hsum & _).
  exists h', total. split; [exact Hrun|exact Hsum].
Defined.

Lemma station_ratio_in_unit_interval_sample :
  ∃ h', computeStationTraffic sample_buckets sample_stations 30 sample_heap
        = Some (sample_stations, h')
      ∧ ∃ (d : obj) (r : R),
          h' !! 0%nat = Some d ∧ station_ratio d = Some r ∧ (0 <= r <= 1)%R.
Proof.
  destruct (station_ratio_in_unit_interval sample_buckets sample_stations 30 sample_heap
              sample_allocated) as (h' & Hrun & Hall).
  exists h'. split; [exact Hrun|].
  destruct (Hall 0%nat) as (d & r & Hd & Hr & Hb & _); [left|].
  exists d, r. split; [exact Hd|]. split; [exact Hr|exact Hb].
Defined.

Lemma stationFlow_by_counts_sample :
  stationFlow (departure_ratio 2 (1 + 2)) = 1%R.
Proof.
  apply (stationFlow_by_counts 2 1); lia.
Defined.

Lemma computeStationTraffic_keeps_coords_sample :
  ∃ h', computeStationTraffic sample_buckets sample_stations 30 sample_heap
        = Some (sample_stations, h')
      ∧ ∃ o', h' !! 0%nat = Some o'
              ∧ getCoords_lon o' = getCoords_lon station_A
              ∧ getCoords_lat o' = getCoords_lat station_A.
Proof.
  destruct (computeStationTraffic_keeps_coords sample_buckets sample_stations 30
              sample_heap sample_allocated) as (h' & Hrun & Hall).
  exists h'. split; [exact Hrun|]. apply (Hall 0%nat station_A). reflexivity.
Defined.

Lemma slide_last_filter_only_sample :
  ∃ p',
    slide sample_buckets ([30; NO_FILTER] ++ [720])
      {| originalStations := sample_stations; station_heap := sample_heap;
         radiusScale := {| scale_domain := (Num 0, Num 2); scale_range := (0, 25) |} |}
    = Some p'
    ∧ slide sample_buckets [720]
        {| originalStations := sample_stations; station_heap := sample_heap;
           radiusScale := {| scale_domain := (Num 0, Num 2); scale_range := (0, 25) |} |}
      = Some p'.
Proof.
  apply (slide_last_filter_only sample_buckets [30; NO_FILTER] 720). exact sample_allocated.
Defined.

Lemma scale_apply_monotone_sample :
  scale_apply {| scale_domain := (Num 0, Num 2); scale_range := (3, 50) |} 0 = Some (IZR 3)
  ∧ scale_apply {| scale_domain := (Num 0, Num 2); scale_range := (3, 50) |} 2
    = Some (IZR 50).
Proof.
  destruct (scale_apply_monotone
              {| scale_domain := (Num 0, Num 2); scale_range := (3, 50) |} 2 1 2)
    as (H0 & Hmax & _); [reflexivity|lia|simpl; lia|lia|].
  split; [exact H0|exact Hmax].
Defined.

Lemma circle_r_within_range_sample :
  ∃ p2 r, circle_r p2 0%nat = Some r
          ∧ (IZR (fst (scale_range (radiusScale p2))) <= r
             <= IZR (snd (scale_range (radiusScale p2))))%R.
Proof.
  destruct sample_load_page as (p0 & Hload & Horig & Halloc & Hdom).
  destruct (updateScatterPlot_run sample_buckets 30 p0) as (h1 & _ & _ & _ & Hup);
    [by rewrite Horig|].
  rewrite Horig in Hup.
  destruct (circle_r_within_range sample_buckets sample_stations sample_heap
              p0 p0 _ [] 30 2 sample_stations
              (proj1 sample_lengths) (proj2 sample_lengths) sample_allocated
              Hload eq_refl Hup ltac:(lia) Hdom ltac:(lia) 0%nat ltac:(by left))
    as (r & Hr & Hb).
  eexists _, r. split; [exact Hr|exact Hb].
Defined.

Lemma circle_r_without_traffic_sample :
  ∃ p0, load_page initial_buckets sample_stations sample_heap = Some p0
        ∧ circle_r p0 0%nat = Some 12.5%R.
Proof.
  destruct empty_load_page as (p0 & Hload & Hzero).
  exists p0. split; [exact Hload|].
  apply (circle_r_without_traffic initial_buckets sample_stations sample_heap p0
           Hload Hzero 0%nat). by left.
Defined.

Lemma unknown_stations_trip_ignored_sample :
  computeStationTraffic
    {| departuresByMinute :=
         <[7%nat := slot (departuresByMinute sample_buckets) 7
                    ++ [convert_dates sample_newDate
                          (RawRow (VStr "Y") (VStr "Z")
                             (VStr "2024-03-01 00:05:00") (VStr "2024-03-01 00:10:00"))]]>
           (departuresByMinute sample_buckets);
       arrivalsByMinute :=
         <[9%nat := slot (arrivalsByMinute sample_buckets) 9
                    ++ [convert_dates sample_newDate
                          (RawRow (VStr "Y") (VStr "Z")
                             (VStr "2024-03-01 00:05:00") (VStr "2024-03-01 00:10:00"))]]>
           (arrivalsByMinute sample_buckets) |}
    sample_stations 30 sample_heap
  = computeStationTraffic sample_buckets sample_stations 30 sample_heap.
Proof.
  apply (unknown_stations_trip_ignored sample_buckets sample_stations 30 sample_heap);
    [exact sample_allocated|].
  intros l Hl. unfold sample_stations in Hl.
  apply elem_of_cons in Hl as [->|Hl]; [split; discriminate|].
  apply elem_of_cons in Hl as [->|Hl]; [split; discriminate|].
  inversion Hl.
Defined.

Lemma busiest_station_radius_sample :
  ∃ p0 l, load_page sample_buckets sample_stations sample_heap = Some p0
          ∧ l ∈ sample_stations
          ∧ circle_r p0 l = Some 25%R.
Proof.
  destruct sample_load_page as (p0 & Hload & _ & _ & Hdom).
  destruct (busiest_station_radius sample_buckets sample_stations sample_heap p0 2
              Hload Hdom ltac:(lia)) as ((l & Hl & _ & Hr) & _).
  exists p0, l. split; [exact Hload|]. split; [exact Hl|exact Hr].
Defined.

(** * The radius scale on a page *)

Lemma d3_max_Num (values : list value) :
  values ≠ [] → (∀ v, v ∈ values → ∃ n, v = VInt n) → ∃ m, d3_max values = Num m.
Proof.
  induction values as [|v values IH]; [done|]. intros _ Hall. simpl.
  destruct (Hall v) as [n ->]; [by left|]. simpl.
  destruct (d3_max values) as [|m]; eauto.
Qed.

(** On a domain that has collapsed to [[0, 0]] the scale is constant, at
    the middle of its range. *)
Lemma scale_apply_collapsed (s : sqrt_scale) (x : Z) :
  scale_domain s = (Num 0, Num 0) →
  scale_apply s x
  = Some ((IZR (fst (scale_range s)) + IZR (snd (scale_range s))) / 2)%R.
Proof.
  intros Hdom. unfold scale_apply. rewrite Hdom. f_equal.
  rewrite (transformSqrt_nonneg 0) by lra. rewrite sqrt_0.
  unfold bimap. destruct (Rlt_dec 0 0) as [Hlt|_]; [lra|].
  unfold normalize. destruct (Req_dec_T (0 - 0) 0) as [_|Hne]; [|lra].
  unfold interpolateNumber. lra.
Qed.

(** What [load_page] leaves: the heap of the unfiltered call, on which every
    station has a count for [totalTraffic], and the scale made from it. *)
Lemma load_page_totals (b : buckets) (stations0 : list loc) (h : heap) (p0 : page) :
  load_page b stations0 h = Some p0 →
  computeStationTraffic b stations0 NO_FILTER h = Some (stations0, station_heap p0)
  ∧ originalStations p0 = stations0
  ∧ radiusScale p0
    = {| scale_domain :=
           (Num 0, d3_max (map (totalTraffic_of (station_heap p0)) stations0));
         scale_range := (0, 25) |}
  ∧ ∀ l, l ∈ stations0 →
      ∃ n, 0 ≤ n ∧ totalTraffic_of (station_heap p0) l = VInt n.
Proof.
  intros Hload. unfold load_page in Hload.
  destruct (computeStationTraffic b stations0 NO_FILTER h) as [[stations h0]|] eqn:Hrun;
    [|done].
  injection Hload as <-. simpl.
  pose proof Hrun as Hout.
  apply array_map_station_callback_Some in Hout as [-> Halloc].
  split; [done|]. split; [done|]. split; [done|]. intros l Hl.
  destruct (computeStationTraffic_fields b stations0 NO_FILTER h Halloc)
    as (h0' & Hrun' & _ & Hf).
  rewrite Hrun in Hrun'. injection Hrun' as <-.
  destruct (Hf l Hl) as (_ & _ & Htot).
  eexists. split; [|exact Htot].
  pose proof (count_by_bounds start_station_id (station_id h l)
                (filterByMinute (departuresByMinute b) NO_FILTER)).
  pose proof (count_by_bounds end_station_id (station_id h l)
                (filterByMinute (arrivalsByMinute b) NO_FILTER)).
  lia.
Qed.

(** C9, as the code has it. The radius scale is created once, with range
    [[0, 25]] and with domain [[0, max]]; for a station list that is not
    empty [max] is a number, the largest [totalTraffic] that the unfiltered
    call left, attained by a station and not negative.  However many slider
    events follow, the domain is the one the scale was created with, and
    after an update with filter [f] the range is [[0, 25]] for the
    unfiltered value and [[3, 50]] for a filter in [0, 1439].  In exact
    arithmetic the scale takes a count [x ≥ 0] to
    [min + sqrt (x / max) * (max_r - min)] of its range when the domain
    maximum is positive; when the domain maximum is 0 it takes every count
    to the middle of its range. *)
Theorem radiusScale_domain_and_range (b : buckets) (stations0 : list loc) (h : heap)
  (p0 p1 p2 : page) (filters : list Z) (f : Z) (out : list loc) :
  load_page b stations0 h = Some p0 →
  slide b filters p0 = Some p1 →
  updateScatterPlot b f p1 = Some (out, p2) →
  (∃ h0, computeStationTraffic b stations0 NO_FILTER h = Some (stations0, h0)
     ∧ scale_domain (radiusScale p0)
       = (Num 0, d3_max (map (totalTraffic_of h0) stations0))
     ∧ (stations0 ≠ [] →
        ∃ dmax, 0 ≤ dmax
          ∧ d3_max (map (totalTraffic_of h0) stations0) = Num dmax
          ∧ (∃ l, l ∈ stations0 ∧ totalTraffic_of h0 l = VInt dmax)
          ∧ (∀ l, l ∈ stations0 →
               ∃ n, totalTraffic_of h0 l = VInt n ∧ 0 ≤ n ≤ dmax)))
  ∧ scale_range (radiusScale p0) = (0, 25)
  ∧ scale_domain (radiusScale p2) = scale_domain (radiusScale p0)
  ∧ (f = NO_FILTER → scale_range (radiusScale p2) = (0, 25))
  ∧ (0 ≤ f ≤ 1439 → scale_range (radiusScale p2) = (3, 50))
  ∧ (∀ dmax x : Z,
       scale_domain (radiusScale p2) = (Num 0, Num dmax) → 0 ≤ x →
       (0 < dmax →
        scale_apply (radiusScale p2) x
        = Some (IZR (fst (scale_range (radiusScale p2)))
                + sqrt (IZR x / IZR dmax)
                  * (IZR (snd (scale_range (radiusScale p2)))
                     - IZR (fst (scale_range (radiusScale p2)))))%R)
       ∧ (dmax = 0 →
          scale_apply (radiusScale p2) x
          = Some ((IZR (fst (scale_range (radiusScale p2)))
                   + IZR (snd (scale_range (radiusScale p2)))) / 2)%R)).
Proof.
  intros Hload Hslide Hupdate.
  apply load_page_totals in Hload as (Hrun & _ & Hscale & Htotals).
  apply slide_scale in Hslide as [_ Hdom1].
  apply updateScatterPlot_scale in Hupdate as (_ & Hdom2 & Hrange).
  split.
  { exists (station_heap p0). split; [done|]. split; [by rewrite Hscale|].
    intros Hne.
    destruct (d3_max_Num (map (totalTraffic_of (station_heap p0)) stations0))
      as [dmax Hmax].
    - intros Hnil. by apply map_eq_nil in Hnil.
    - intros v Hv. apply list_elem_of_fmap in Hv as (l & -> & Hl).
      destruct (Htotals l Hl) as (n & _ & ->). eauto.
    - pose proof (d3_max_spec _ _ Hmax) as [Hin Hle].
      apply list_elem_of_fmap in Hin as (l & Heq & Hl).
      exists dmax. split.
      + destruct (Htotals l Hl) as (n & Hn & Hn'). rewrite Hn' in Heq.
        injection Heq as ->. done.
      + split; [done|]. split; [by exists l|].
        intros l' Hl'. destruct (Htotals l' Hl') as (n & Hn & Hn').
        exists n. split; [done|]. split; [done|].
        apply Hle. rewrite <- Hn'. apply list_elem_of_fmap. by exists l'. }
  split; [by rewrite Hscale|]. split; [by rewrite Hdom2, Hdom1|].
  split; [intros ->; by rewrite Hrange|]. split.
  { intros Hf. rewrite Hrange. destruct (Z.eqb_spec f (-1)); [lia|done]. }
  intros dmax x Hdom Hx. split.
  - intros Hmax. by apply scale_apply_sqrt.
  - intros ->. by apply scale_apply_collapsed.
Qed.

(** The page of the stations of the data set with no trip at all: the
    domain has collapsed and every radius is 12.5. *)
Lemma load_page_without_traffic :
  ∃ p0, load_page initial_buckets sample_stations sample_heap = Some p0
        ∧ scale_domain (radiusScale p0) = (Num 0, Num 0)
        ∧ scale_range (radiusScale p0) = (0, 25)
        ∧ totalTraffic_of (station_heap p0) 0%nat = VInt 0
        ∧ circle_r p0 0%nat = Some 12.5%R.
Proof.
  destruct empty_load_page as (p0 & Hload & Hzero).
  exists p0. split; [done|].
  apply load_page_totals in Hload as (_ & _ & Hscale & _).
  assert (Hmax : d3_max (map (totalTraffic_of (station_heap p0)) sample_stations) = Num 0).
  { apply d3_max_zero; [done|].
    intros v Hv. apply list_elem_of_fmap in Hv as (l & -> & Hl). by apply Hzero. }
  assert (Hdom : scale_domain (radiusScale p0) = (Num 0, Num 0))
    by (rewrite Hscale; cbn [scale_domain]; by rewrite Hmax).
  split; [done|]. split; [by rewrite Hscale|].
  split; [apply Hzero; by left|].
  unfold circle_r. rewrite (Hzero 0%nat) by (by left). simpl.
  rewrite (scale_apply_collapsed _ 0 Hdom). rewrite Hscale. simpl. f_equal. lra.
Qed.

(** Against C9: with the two stations of the data set and no trip, the
    station list is not empty, the domain maximum is 0 and a station
    without traffic gets the radius 12.5, where the formula of the claim,
    evaluated at [totalTraffic = 0], [domainMax = 0] and the range
    [[0, 25]], does not. *)
Lemma radius_formula_fails_without_traffic :
  ∃ p0, load_page initial_buckets sample_stations sample_heap = Some p0
        ∧ scale_domain (radiusScale p0) = (Num 0, Num 0)
        ∧ scale_range (radiusScale p0) = (0, 25)
        ∧ totalTraffic_of (station_heap p0) 0%nat = VInt 0
        ∧ circle_r p0 0%nat = Some 12.5%R
        ∧ (IZR 0 + sqrt (IZR 0 / IZR 0) * (IZR 25 - IZR 0))%R ≠ 12.5%R.
Proof.
  destruct load_page_without_traffic as (p0 & Hload & Hdom & Hrange & Hzero & Hr).
  exists p0. repeat (split; [done|]).
  replace (IZR 0 / IZR 0)%R with 0%R by (unfold Rdiv; by rewrite Rmult_0_l).
  rewrite sqrt_0. lra.
Qed.

Lemma radiusScale_domain_and_range_sample :
  ∃ (p0 p2 : page) (out : list loc),
    load_page sample_buckets sample_stations sample_heap = Some p0
    ∧ slide sample_buckets [] p0 = Some p0
    ∧ updateScatterPlot sample_buckets 720 p0 = Some (out, p2)
    ∧ scale_domain (radiusScale p0) = (Num 0, Num 2)
    ∧ scale_domain (radiusScale p2) = scale_domain (radiusScale p0)
    ∧ scale_range (radiusScale p2) = (3, 50)
    ∧ scale_apply (radiusScale p2) 2 = Some 50%R.
Proof.
  destruct sample_load_page as (p0 & Hload & Horig & Halloc & Hdom).
  destruct (updateScatterPlot_run sample_buckets 720 p0) as (h1 & _ & _ & _ & Hup);
    [by rewrite Horig|].
  exists p0. eexists. exists (originalStations p0).
  split; [exact Hload|]. split; [reflexivity|]. split; [exact Hup|].
  split; [exact Hdom|].
  destruct (radiusScale_domain_and_range sample_buckets sample_stations sample_heap
              p0 p0 _ [] 720 _ Hload eq_refl Hup)
    as (_ & _ & Hdom2 & _ & Hrange & Hformula).
  split; [exact Hdom2|]. split; [apply Hrange; lia|].
  destruct (Hformula 2 2) as [Hsqrt _]; [by rewrite Hdom2|lia|].
  rewrite Hsqrt by lia. rewrite (Hrange ltac:(lia)). simpl. f_equal.
  replace (2 / 2)%R with 1%R by lra. rewrite sqrt_1. lra.
Defined.
